(** * AIVS Accounting RAG API: answer structuring and document assembly

    A shallow embedding of [business_api/api.py]: the Python string
    primitives and the regular expressions the handler uses, the
    answer-structuring loop, the document renderer, the review pass, the
    mail sender and the [/generate] handler; and of [google_search.py], the
    news search. The properties of the specification follow.

    Conventions.
    - A Python [str] is a list of Unicode code points ([N]).
    - The file is read as it is written. [import datetime] binds the
      module, so [datetime.utcnow()] and [datetime.now(...)] raise
      [AttributeError] wherever they are called.
    - A name the file uses and does not define ([OpenAI], hence [client])
      is a parameter, as are the services outside the program (the chat
      model, the files, the mail vendor, the search API) and the Unicode
      case table.
    - [print] is left out. *)

From Stdlib Require Import String Ascii DecimalString.
From Stdlib Require Import List NArith Bool Lia Arith.
Import ListNotations.

Set Implicit Arguments.

(** ** Python strings *)

Module Py.

Definition str := list N.

(** A Basic Latin literal as a [str]. *)
Definition lit (s : string) : str :=
  map N_of_ascii (list_ascii_of_string s).

Definition str_eqb (a b : str) : bool :=
  if list_eq_dec N.eq_dec a b then true else false.

Definition between (lo hi c : N) : bool := ((lo <=? c) && (c <=? hi))%N.

(** [str.isspace] on one code point, which is also the class [\s] of [re]
    on [str] patterns. *)
Definition isspace (c : N) : bool :=
  between 9 13 c || between 28 32 c || (c =? 133)%N || (c =? 160)%N
  || (c =? 5760)%N || between 8192 8202 c || (c =? 8232)%N
  || (c =? 8233)%N || (c =? 8239)%N || (c =? 8287)%N || (c =? 12288)%N.

(** The decimal digits (category Nd) of the Unicode database, the class
    [\d] of [re] on [str] patterns: each entry is the zero of a run of ten,
    but for the fifty mathematical digits from U+1D7CE. *)
Definition digit_zeros : list N :=
  [48; 1632; 1776; 1984; 2406; 2534; 2662; 2790; 2918; 3046; 3174; 3302;
   3430; 3558; 3664; 3792; 3872; 4160; 4240; 6112; 6160; 6470; 6608; 6784;
   6800; 6992; 7088; 7232; 7248; 42528; 43216; 43264; 43472; 43504; 43600;
   44016; 65296; 66720; 68912; 69734; 69872; 69942; 70096; 70384; 70736;
   70864; 71248; 71360; 71472; 71904; 72016; 72784; 73040; 73120; 92768;
   92864; 93008; 123200; 123632; 125264; 130032]%N.

Definition isdecimal (c : N) : bool :=
  existsb (fun z => between z (z + 9) c) digit_zeros
  || between 120782 120831 c.

(** Line boundaries of [str.splitlines]. *)
Definition islinebreak (c : N) : bool :=
  between 10 13 c || between 28 30 c || (c =? 133)%N || (c =? 8232)%N
  || (c =? 8233)%N.

Fixpoint lstrip (s : str) : str :=
  match s with
  | c :: t => if isspace c then lstrip t else s
  | [] => []
  end.

Definition rstrip (s : str) : str := rev (lstrip (rev s)).

Definition strip (s : str) : str := rstrip (lstrip s).

(** [s.splitlines()]: [cur] is the current line, reversed. *)
Fixpoint splitlines_from (cur : str) (s : str) : list str :=
  match s with
  | [] => match cur with [] => [] | _ => [rev cur] end
  | c :: t =>
      if (c =? 13)%N then
        match t with
        | d :: t' =>
            if (d =? 10)%N then rev cur :: splitlines_from [] t'
            else rev cur :: splitlines_from [] t
        | [] => [rev cur]
        end
      else if islinebreak c then rev cur :: splitlines_from [] t
      else splitlines_from (c :: cur) t
  end.

Definition splitlines (s : str) : list str := splitlines_from [] s.

(** [sep.join(parts)]. *)
Fixpoint join (sep : str) (parts : list str) : str :=
  match parts with
  | [] => []
  | [p] => p
  | p :: ps => p ++ sep ++ join sep ps
  end.

Fixpoint starts_with (p s : str) : bool :=
  match p, s with
  | [], _ => true
  | a :: p', b :: s' => (a =? b)%N && starts_with p' s'
  | _ :: _, [] => false
  end.

(** [s.split(sep)[0]] for a non-empty [sep]: the text before the first
    occurrence of [sep], or all of [s]. *)
Fixpoint before_first (sep s : str) : str :=
  if starts_with sep s then []
  else match s with
       | [] => []
       | c :: t => c :: before_first sep t
       end.

(** [s.replace(old, new)] for a one-character [old]. *)
Definition replace_char (old : N) (new : str) (s : str) : str :=
  flat_map (fun c => if (c =? old)%N then new else [c]) s.

(** The simple lower-case mapping that [re.IGNORECASE] applies, exact on
    every code point whose image is a Basic Latin letter; the other code
    points are left as they are, which no comparison against the Basic
    Latin literals of this program can observe. *)
Definition simple_lower (c : N) : N :=
  if between 65 90 c then (c + 32)%N
  else if (c =? 304)%N then 105%N
  else if (c =? 8490)%N then 107%N
  else c.

(** [str.lower()] as the title test of api.py 504 needs it, where the
    result is compared with Basic Latin literals: exact on every code point
    whose lower-case form has a Basic Latin letter in it (U+0130 lowers to
    two code points); any other code point is left as it is, and neither
    it nor its lower-case form is Basic Latin. It is not [str.lower()]
    where the result is kept, as in the folder name of api.py 371. *)
Definition lower (s : str) : str :=
  flat_map (fun c => if (c =? 304)%N then [105; 775]%N else [simple_lower c]) s.

(** [str.upper()] on Basic Latin; the upper-case forms of the other code
    points come from the Unicode case table [uni_upper]. *)
Definition upper (uni_upper : N -> str) (s : str) : str :=
  flat_map (fun c => if between 97 122 c then [(c - 32)%N]
                     else if (c <? 128)%N then [c]
                     else uni_upper c) s.

End Py.

Import Py.

(** ** Regular expressions

    The fragment of [re] the program uses, with the backtracking order of
    the library: quantifiers range over character classes, every pattern has
    at most one capturing group, and every pattern consumes at least one
    character when it matches. *)

Module Re.

Inductive re : Type :=
| Eps
| Chr (p : N -> bool)                  (* one character of a class *)
| Star (greedy : bool) (p : N -> bool) (* [p*] and [p*?] *)
| Seq (a b : re)
| Alt (a b : re)
| Grp (a : re)                         (* the capturing group *)
| Bol (multiline : bool)               (* [^] *)
| Eol                                  (* [$], no MULTILINE *)
| EndZ                                 (* [\Z] *)
| Ahead (a : re).                      (* [(?=a)] *)

(** A successful match: the text left after it and the captured group. *)
Definition outcome : Type := str * option str.

(** A continuation gets the character before the position, the text from the
    position on, and the group captured so far. *)
Definition cont : Type := option N -> str -> option str -> option outcome.

Definition orelse (a b : option outcome) : option outcome :=
  match a with Some _ => a | None => b end.

Fixpoint star_greedy (p : N -> bool) (k : option N -> str -> option outcome)
    (prev : option N) (s : str) : option outcome :=
  match s with
  | c :: t =>
      if p c then orelse (star_greedy p k (Some c) t) (k prev s)
      else k prev s
  | [] => k prev s
  end.

Fixpoint star_lazy (p : N -> bool) (k : option N -> str -> option outcome)
    (prev : option N) (s : str) : option outcome :=
  match k prev s with
  | Some m => Some m
  | None =>
      match s with
      | c :: t => if p c then star_lazy p k (Some c) t else None
      | [] => None
      end
  end.

Definition accept : cont := fun _ s g => Some (s, g).

Fixpoint exec (r : re) (k : cont) (prev : option N) (s : str)
    (g : option str) : option outcome :=
  match r with
  | Eps => k prev s g
  | Chr p =>
      match s with
      | c :: t => if p c then k (Some c) t g else None
      | [] => None
      end
  | Star greedy p =>
      if greedy then star_greedy p (fun q u => k q u g) prev s
      else star_lazy p (fun q u => k q u g) prev s
  | Seq a b => exec a (fun q u h => exec b k q u h) prev s g
  | Alt a b => orelse (exec a k prev s g) (exec b k prev s g)
  | Grp a =>
      exec a (fun q u _ =>
                k q u (Some (firstn (length s - length u) s))) prev s g
  | Bol multiline =>
      match prev with
      | None => k prev s g
      | Some c => if multiline && (c =? 10)%N then k prev s g else None
      end
  | Eol =>
      match s with
      | [] => k prev s g
      | [c] => if (c =? 10)%N then k prev s g else None
      | _ => None
      end
  | EndZ => match s with [] => k prev s g | _ => None end
  | Ahead a =>
      match exec a accept prev s g with
      | Some _ => k prev s g
      | None => None
      end
  end.

(** The match of [r] that starts at this position: how many characters it
    takes, and its group. *)
Definition match_at (r : re) (prev : option N) (s : str)
    : option (nat * option str) :=
  match exec r accept prev s None with
  | Some (u, g) => Some (length s - length u, g)
  | None => None
  end.

(** [re.match(r, s)] as a truth value. *)
Definition matches (r : re) (s : str) : bool :=
  match match_at r None s with Some _ => true | None => false end.

(** The left-to-right scan behind [re.sub], [re.split] and [re.findall]:
    the characters outside every match, and the matches. [skip] counts the
    characters of the current match still to pass over. *)
Inductive piece : Type :=
| Keep (c : N)
| Hit (g : option str).

Fixpoint scan (r : re) (skip : nat) (prev : option N) (s : str)
    : list piece :=
  match s with
  | [] => []
  | c :: t =>
      match skip with
      | S n => scan r n (Some c) t
      | O =>
          match match_at r prev s with
          | Some (S n, g) => Hit g :: scan r n (Some c) t
          | _ => Keep c :: scan r 0 (Some c) t
          end
      end
  end.

Definition group_text (g : option str) : str :=
  match g with Some t => t | None => [] end.

(** [re.sub(r, repl, s)], the replacement given as a function of the
    group. *)
Definition sub (r : re) (repl : option str -> str) (s : str) : str :=
  flat_map (fun p => match p with Keep c => [c] | Hit g => repl g end)
           (scan r 0 None s).

(** [re.split(r, s)] for a pattern with one group: the text before the first
    match, then group and following text for every match. [cur] is the
    current stretch of text, reversed. *)
Fixpoint split_pieces (cur : str) (ps : list piece) : list str :=
  match ps with
  | [] => [rev cur]
  | Keep c :: ps' => split_pieces (c :: cur) ps'
  | Hit g :: ps' => rev cur :: group_text g :: split_pieces [] ps'
  end.

Definition split (r : re) (s : str) : list str :=
  split_pieces [] (scan r 0 None s).

(** The number of matches [re.findall] reports. *)
Definition count (r : re) (s : str) : nat :=
  List.length (filter (fun p => match p with Hit _ => true | Keep _ => false end)
                      (scan r 0 None s)).

(** *** Pattern syntax *)

Definition any : N -> bool := fun _ => true.
Definition dot : N -> bool := fun c => negb (c =? 10)%N.
Definition chr (c : N) : N -> bool := N.eqb c.
Definition oneof (cs : list N) : N -> bool := fun c => existsb (N.eqb c) cs.

(** Characters that a letter also matches under IGNORECASE. *)
Definition case_fixes (lo : N) : list N :=
  if (lo =? 105)%N then [305%N] else if (lo =? 115)%N then [383%N] else [].

Definition chr_i (p : N) : N -> bool :=
  fun c => let lo := simple_lower p in
           let lc := simple_lower c in
           (lc =? lo)%N || existsb (N.eqb lc) (case_fixes lo).

Fixpoint seq_of (cls : N -> N -> bool) (s : str) : re :=
  match s with
  | [] => Eps
  | c :: t => Seq (Chr (cls c)) (seq_of cls t)
  end.

Definition text (s : string) : re := seq_of chr (lit s).
Definition text_i (s : string) : re := seq_of chr_i (lit s).
Definition plus (p : N -> bool) : re := Seq (Chr p) (Star true p).
Definition opt (p : N -> bool) : re := Alt (Chr p) Eps.

End Re.

Import Re.

(** ** The patterns of [api.py] *)

Module Patterns.

Definition bullet : N -> bool := oneof [45; 8226; 8211]%N.

(** [r'^### (.*?)\n'], MULTILINE. *)
Definition heading_re : re :=
  Seq (Bol true) (Seq (text "### ") (Seq (Grp (Star false dot)) (Chr (chr 10)))).

(** [r'^\s*Enquirer Reply\s*'], IGNORECASE. *)
Definition lead_title_re : re :=
  Seq (Bol false)
      (Seq (Star true isspace) (Seq (text_i "Enquirer Reply") (Star true isspace))).

(** [r'^\s*Hello,\s*'], IGNORECASE. *)
Definition lead_hello_re : re :=
  Seq (Bol false)
      (Seq (Star true isspace) (Seq (text_i "Hello,") (Star true isspace))).

(** [r'^\s*(enquirer reply|hello,?)\s*$'], IGNORECASE. *)
Definition greeting_line_re : re :=
  Seq (Bol false)
      (Seq (Star true isspace)
           (Seq (Grp (Alt (text_i "enquirer reply")
                          (Seq (text_i "hello") (opt (chr 44)))))
                (Seq (Star true isspace) Eol))).

(** [r'^[-•–]?\s*\d+[.)]?\s*']. *)
Definition number_prefix_re : re :=
  Seq (Bol false)
      (Seq (opt bullet)
           (Seq (Star true isspace)
                (Seq (plus isdecimal)
                     (Seq (opt (oneof [46; 41]%N)) (Star true isspace))))).

(** [r'^[-•–]\s*']. *)
Definition bullet_prefix_re : re :=
  Seq (Bol false) (Seq (Chr bullet) (Star true isspace)).

(** [r'\*\*(.*?)\*\*']. *)
Definition bold_re : re :=
  Seq (text "**") (Seq (Grp (Star false dot)) (text "**")).

(** [r"### ORIGINAL QUERY\s*[\r\n]+.*?(?=###|\Z)"], IGNORECASE | DOTALL. *)
Definition original_query_re : re :=
  Seq (text_i "### ORIGINAL QUERY")
      (Seq (Star true isspace)
           (Seq (plus (oneof [13; 10]%N))
                (Seq (Star false any) (Ahead (Alt (text "###") EndZ))))).

(** [r'(Best regards,|Yours sincerely,|Kind regards,)[\s\S]*$'],
    IGNORECASE. *)
Definition signoff_re : re :=
  Seq (Grp (Alt (text_i "Best regards,")
                (Alt (text_i "Yours sincerely,") (text_i "Kind regards,"))))
      (Seq (Star true any) Eol).

Definition erase : option str -> str := fun _ => [].

End Patterns.

Import Patterns.

(** ** The structured answer: an insertion-ordered [dict] *)

Definition dict : Type := list (str * str).

(** [d[k] = v]: an existing key keeps its place. *)
Fixpoint dict_set (k v : str) (d : dict) : dict :=
  match d with
  | [] => [(k, v)]
  | (k', v') :: d' =>
      if str_eqb k k' then (k', v) :: d' else (k', v') :: dict_set k v d'
  end.

Fixpoint dict_get (k : str) (d : dict) : option str :=
  match d with
  | [] => None
  | (k', v') :: d' => if str_eqb k k' then Some v' else dict_get k d'
  end.

Definition keys (d : dict) : list str := map fst d.

Definition nonempty (s : str) : bool :=
  match s with [] => false | _ => true end.

(** ** Answer structuring (the loop of [generate_response]) *)

Record loop_state : Type := {
  structured : dict;
  current_title : option str
}.

Definition NL : str := [10%N].

(** The lines kept under an "enquirer reply" or "initial response"
    heading. *)
Definition cleaned_lines (content : str) : list str :=
  filter (fun line => negb (matches greeting_line_re line)) (splitlines content).

Definition is_reply_title (t : str) : bool :=
  existsb (str_eqb (lower t)) [lit "enquirer reply"; lit "initial response"].

(** One iteration of [for i, part in enumerate(sections)]. *)
Definition step (i : nat) (part : str) (st : loop_state) : loop_state :=
  let content := strip part in
  if (i =? 0) && nonempty content then
    let content := sub lead_title_re erase content in
    let content := sub lead_hello_re erase content in
    {| structured := dict_set (lit "Enquirer Reply") content (structured st);
       current_title := current_title st |}
  else if i mod 2 =? 1 then
    {| structured := structured st; current_title := Some content |}
  else
    match current_title st with
    | Some title =>
        if (i mod 2 =? 0) && nonempty title then
          let content :=
            if is_reply_title title
            then strip (join NL (cleaned_lines content))
            else content in
          {| structured := dict_set title content (structured st);
             current_title := current_title st |}
        else st
    | None => st
    end.

Fixpoint loop (i : nat) (parts : list str) (st : loop_state) : loop_state :=
  match parts with
  | [] => st
  | part :: rest => loop (S i) rest (step i part st)
  end.

Definition structure (answer : str) : dict :=
  let sections := split heading_re answer in
  let st := loop 0 sections {| structured := []; current_title := None |} in
  match structured st with
  | [] => [(lit "Initial Response", strip answer)]
  | d => d
  end.

(** The clean-up that precedes structuring: the repeated original-query
    section is removed and the answer trimmed. *)
Definition remove_original_query (answer : str) : str :=
  strip (sub original_query_re erase answer).

(** ** The document ([python-docx]) *)

Inductive pstyle : Type := Normal | ListNumber.

Record run : Type := {
  rtext : str;
  bold : bool;
  italic : bool;
  size : option N            (* points, when the run sets it *)
}.

Record paragraph : Type := {
  style : pstyle;
  runs : list run;
  left_indent : option N     (* millimetres, when the paragraph sets it *)
}.

Definition plain_run (t : str) : run :=
  {| rtext := t; bold := false; italic := false; size := None |}.

(** [doc.add_paragraph(text)]: the run is there when the text is not
    empty. *)
Definition add_paragraph (t : str) (st : pstyle) : paragraph :=
  {| style := st;
     runs := match t with [] => [] | _ => [plain_run t] end;
     left_indent := None |}.

(** [doc.add_paragraph()] followed by [add_run(t)] and the run settings. *)
Definition styled (t : str) (b i : bool) (pt : N) : paragraph :=
  {| style := Normal;
     runs := [{| rtext := t; bold := b; italic := i; size := Some pt |}];
     left_indent := None |}.

Definition paragraph_text (p : paragraph) : str :=
  flat_map rtext (runs p).

(** *** Times and [strftime] *)

Record datetime : Type := {
  year : N; month : N; day : N;
  hour : N; minute : N; second : N;
  tzname : str
}.

Definition decimal (n : N) : str :=
  lit (NilZero.string_of_uint (N.to_uint n)).

Definition two (n : N) : str :=
  if (n <? 10)%N then 48%N :: decimal n else decimal n.

Definition month_name (m : N) : str :=
  lit (nth (N.to_nat m - 1)
           ["January"; "February"; "March"; "April"; "May"; "June"; "July";
            "August"; "September"; "October"; "November"; "December"]%string
           ""%string).

(** ["%d %B %Y at %H:%M:%S (%Z)"]. *)
Definition uk_stamp (t : datetime) : str :=
  two (day t) ++ lit " " ++ month_name (month t) ++ lit " "
  ++ decimal (year t) ++ lit " at " ++ two (hour t) ++ lit ":"
  ++ two (minute t) ++ lit ":" ++ two (second t) ++ lit " ("
  ++ tzname t ++ lit ")".

(** *** Fixed text *)

Definition divider : str := repeat 9472%N 44.

Definition disclaimer : str :=
  lit "This document was generated by AIVS Software Limited using AI assistance (OpenAI). Please review for accuracy and relevance before taking any formal action.".

Definition copyright : str :=
  169%N :: lit " AIVS Software Limited 2025. All rights reserved.".

Definition note : str :=
  lit "Note: This report was prepared using AI analysis based on the submitted query.".

(** *** Rendering *)

Section Render.

(** Upper-case forms outside Basic Latin, from the Unicode case table. *)
Variable uni_upper : N -> str.

(** [rename.get(title, title)]. *)
Definition display_title (title : str) : str :=
  if str_eqb title (lit "Enquirer Reply") then lit "Initial Response"
  else title.

Definition is_list_title (title : str) : bool :=
  existsb (str_eqb title) [lit "Action Sheet"; lit "Policy Notes"].

(** One line of a numbered section, prefixes removed. *)
Definition clean_entry (line : str) : str :=
  let clean := strip line in
  let clean := sub number_prefix_re erase clean in
  sub bullet_prefix_re erase clean.

Definition list_entry (clean : str) : paragraph :=
  {| style := ListNumber; runs := [plain_run clean]; left_indent := Some 5%N |}.

Definition list_entries (body : str) : list paragraph :=
  map list_entry (filter nonempty (map clean_entry (splitlines body))).

(** The paragraphs of one section: the heading, then the numbered entries
    or the single paragraph. [body] is [structured[title]]. *)
Definition render_section (title body : str) : list paragraph :=
  styled (upper uni_upper (display_title title)) true false 12
  :: (if is_list_title title then list_entries body
      else [styled (sub bold_re group_text body) false false 11]).

Definition render_sections (d : dict) : list paragraph :=
  flat_map (fun kv => render_section (fst kv) (snd kv)) d.

Definition front_matter (query_text full_name : str) (generated : datetime)
    : list paragraph :=
  [ styled (lit "RESPONSE FOR " ++ upper uni_upper full_name) true false 14;
    add_paragraph (lit "Generated: " ++ uk_stamp generated) Normal;
    styled (lit "ORIGINAL QUERY") true false 11;
    styled divider false false 10;
    styled (34%N :: strip query_text ++ [34%N]) false true 11;
    styled divider false false 10;
    styled (lit "AI RESPONSE") true false 11;
    styled note true false 11;
    styled divider false false 10 ].

Definition back_matter (footer : datetime) : list paragraph :=
  [ add_paragraph [] Normal;
    add_paragraph divider Normal;
    add_paragraph disclaimer Normal;
    add_paragraph copyright Normal;
    add_paragraph (lit "Report generated on " ++ uk_stamp footer) Normal ].

(** The document [generate_response] builds from the structured answer.
    [generated] and [footer] stand for the two London times of api.py 397
    and 557, given here as inputs; what the two lines do as written is
    [datetime_now] below. *)
Definition render (d : dict) (query_text full_name : str)
    (generated footer : datetime) : list paragraph :=
  front_matter query_text full_name generated
  ++ render_sections d
  ++ back_matter footer.

End Render.

(** ** JSON values *)

(** A value that [request.get_json()] or [response.json()] returns. A number
    is kept as the text Python prints for it. *)
#[warnings="-register-all"]
Inductive json : Type :=
| JNull
| JBool (b : bool)
| JNum (repr : str)
| JStr (s : str)
| JList (items : list json)
| JDict (fields : list (str * json)).

(** [d.get(k, default)] on a [dict]. *)
Fixpoint json_get (k : str) (default : json) (d : list (str * json)) : json :=
  match d with
  | [] => default
  | (k', v) :: d' => if str_eqb k k' then v else json_get k default d'
  end.

(** ** Effects

    [generate_reviewed_response] talks to the chat model,
    [send_email_mailjet] to the file system and to the mail vendor. Every
    such call is an [event] of the history, whether it returns or raises;
    what the outside world answers is a function of the history so far. *)

Record attachment : Type := {
  content_type : str;
  filename : str;
  base64_content : str
}.

Record message : Type := {
  from_email : str;
  from_name : str;
  to_email : str;
  to_name : str;
  subject : str;
  text_part : str;
  html_part : str;
  attachments : list attachment
}.

Inductive event : Type :=
| Chat (prompt : str) (max_tokens : N)
| ReadFile (path : str)
| SendMail (messages : list message).

Definition history : Type := list event.

Inductive exn : Type :=
| AttributeError      (* an attribute the object does not have *)
| OSError             (* [open] or [read] fails *)
| RequestException    (* [requests.post] fails *)
| JSONDecodeError.    (* [response.json()] on a body that is not JSON *)

Inductive result (A : Type) : Type :=
| Ok (a : A)
| Raise (e : exn).

Arguments Ok {A} a.
Arguments Raise {A} e.

Definition M (A : Type) : Type := history -> result A * history.

Definition ret {A} (a : A) : M A := fun h => (Ok a, h).

Definition bind {A B} (c : M A) (k : A -> M B) : M B :=
  fun h => match c h with
           | (Ok a, h') => k a h'
           | (Raise e, h') => (Raise e, h')
           end.

Definition raise {A} (e : exn) : M A := fun h => (Raise e, h).

(** A call to the outside: the answer depends on the history, and the call
    is recorded. *)
Definition call {A} (answer : history -> A) (e : event) : M A :=
  fun h => (Ok (answer h), h ++ [e]).

(** A call to the outside that can fail: without an answer it raises
    [x]. *)
Definition attempt {A} (answer : history -> option A) (e : event) (x : exn)
    : M A :=
  fun h => match answer h with
           | Some a => (Ok a, h ++ [e])
           | None => (Raise x, h ++ [e])
           end.

Notation "x <- c ;; k" := (bind c (fun x => k))
  (at level 61, c at next level, right associativity).

Definition is_mail (e : event) : bool :=
  match e with SendMail _ => true | _ => false end.

Definition is_read (e : event) : bool :=
  match e with ReadFile _ => true | _ => false end.

(** *** The clock

    [datetime.utcnow()] and [datetime.now(ZoneInfo("Europe/London"))]. The
    file says [import datetime], so the name is the module, which has
    neither attribute: the look-up raises and no time is read. The calls
    have no value to return, which is what their type says; what a caller
    would do with the time is a [match] without branches. *)
Definition datetime_utcnow : M Empty_set := raise AttributeError.

Definition datetime_now : M Empty_set := raise AttributeError.

(** *** The end of the document, api.py 553-557

    Four paragraphs are added to the document, then the footer asks for
    the time. *)
Definition add_back_matter (doc : list paragraph) : M (list paragraph) :=
  let doc := doc ++ [add_paragraph [] Normal] in
  let doc := doc ++ [add_paragraph divider Normal] in
  let doc := doc ++ [add_paragraph disclaimer Normal] in
  let doc := doc ++ [add_paragraph copyright Normal] in
  t <- datetime_now ;;
  match t return M (list paragraph) with end.

(** ** The request *)

Inductive request : Type :=
| BadJson               (* [request.get_json()] raises *)
| Json (data : json).   (* what it returns, an object or not *)

(** [data.get(k, default)] on a [dict] whose values are strings. *)
Definition get_or (k : string) (default : string) (data : dict) : str :=
  match dict_get (lit k) data with Some v => v | None => lit default end.

(** [data.get(k, default)] on what [get_json] returned: only a [dict] has
    the method. *)
Definition data_get (data : json) (k : string) (default : json) : M json :=
  match data with
  | JDict d => ret (json_get (lit k) default d)
  | _ => raise AttributeError
  end.

(** [jsonify(body), status]. *)
Record response : Type := { status : N; body : json }.

Section Handler.

(** The chat model: the content of the completion. [client] is built from
    [OpenAI], a name the file does not define; it is a parameter. *)
Variable chat : history -> str -> N -> str.

(** The two review prompts, as [textwrap.dedent] leaves them, for a
    draft. *)
Variable accounting_review : str -> str.
Variable generic_review : str -> str.

(** [open(path, "rb").read()]: the bytes, or nothing when it raises. *)
Variable read_file : history -> str -> option (list N).

(** [requests.post] to the mail vendor: nothing when it raises, else the
    status code and, when the body is JSON, its value. *)
Variable post : history -> list message -> option (N * option json).

(** [base64.b64encode(bytes).decode()] and [os.path.basename]. *)
Variable b64encode : list N -> str.
Variable basename : str -> str.

Definition lines (ls : list str) : str := join NL ls.

Definition quoted (s : str) : str := 34%N :: s ++ [34%N].

(** [ask_gpt_with_context]: the prompt. *)
Definition prompt_of (data : dict) (context : str) : str :=
  let query := get_or "query" "" data in
  let funnel_1 := get_or "funnel_1" "Not specified" data in
  let funnel_2 := get_or "funnel_2" "Not specified" data in
  let funnel_3 := get_or "funnel_3" "Not specified" data in
  let dash := [32; 8211; 32]%N in
  lines
    [ [];
      lit "You are responding to a professional business query via a secure reporting system.";
      [];
      lit "All responses must:";
      lit "- Be based on correct UK financial standards, accounting regulations, business risk practices, or strategic management theory.";
      lit "- Use British English spelling and tone.";
      [];
      lit "### Enquiry:";
      quoted query;
      [];
      lit "### Context from FAISS Index:";
      context;
      [];
      [];
      lit "### Additional Focus:";
      lit "- Support Need: " ++ funnel_1;
      lit "- Current Status: " ++ funnel_2;
      lit "- Follow-Up Expectation: " ++ funnel_3;
      [];
      lit "### Your Task:";
      lit "Please generate a structured response that includes:";
      [];
      lit "1. **Client Reply**" ++ dash ++ lit "plain English appropriate for senior business audiences.";
      lit "2. **Action Sheet**" ++ dash ++ lit "bullet-point recommended actions.";
      lit "3. **Policy or Standard Notes**" ++ dash ++ lit "cite relevant accounting standards, regulatory codes, or strategic management principles if applicable.";
      [] ].

Definition review_threshold : nat := 1500.

(** What the review is given: sign-off removed, cut at the context marker
    and at 2000 characters. *)
Definition review_input (initial_response : str) : str :=
  let initial_response := strip (sub signoff_re erase initial_response) in
  let stripped_response :=
    strip (before_first (lit "### Context from FAISS Index:") initial_response) in
  firstn 2000 stripped_response.

Definition generate_reviewed_response (prompt discipline : str) : M str :=
  content <- call (fun h => chat h prompt 1800) (Chat prompt 1800) ;;
  let initial_response := strip content in
  if review_threshold <? List.length initial_response then ret initial_response
  else
    let stripped_response := review_input initial_response in
    let review_prompt :=
      if str_eqb discipline (lit "Accounting")
      then accounting_review stripped_response
      else generic_review stripped_response in
    reviewed <- call (fun h => chat h review_prompt 700) (Chat review_prompt 700) ;;
    ret (strip reviewed).

Definition ask_gpt_with_context (data : dict) (context : str) : M str :=
  generate_reviewed_response (prompt_of data context)
                             (get_or "discipline" "Not specified" data).

(** [send_email_mailjet]. A name compared with [full_name] or
    [supervisor_name], whose default is [None]; and a name inside an
    f-string. *)
Definition is_name (role : str) (name : option str) : bool :=
  match name with Some n => str_eqb role n | None => false end.

Definition shown (name : option str) : str :=
  match name with Some n => n | None => lit "None" end.

(** The letter for one recipient. The enquirer's letter quotes the time. *)
Definition cover_text (role : str) (full_name supervisor_name : option str)
    : M str :=
  if is_name role full_name then
    t <- datetime_utcnow ;;
    match t return M str with end
  else if is_name role supervisor_name then
    ret (lit "To: " ++ shown supervisor_name ++ lit "," ++ NL ++ NL
         ++ lit "Please review the attached report submitted by "
         ++ shown full_name
         ++ lit ". It contains AI-generated analysis for internal review."
         ++ NL)
  else if str_eqb role (lit "HR Department") then
    ret (lit "To: HR Department," ++ NL ++ NL
         ++ lit "This document was generated following a query submitted by "
         ++ shown full_name
         ++ lit ". Please file or follow up according to internal procedures."
         ++ NL)
  else
    ret (lit "Attached is an AI-generated analysis regarding "
         ++ shown full_name ++ lit ".").

Definition docx_type : str :=
  lit "application/vnd.openxmlformats-officedocument.wordprocessingml.document".

(** The list comprehension over [attachments]: every file is opened and
    read. *)
Fixpoint read_attachments (files : list str) : M (list attachment) :=
  match files with
  | [] => ret []
  | file_path :: more =>
      bytes <- attempt (fun h => read_file h file_path) (ReadFile file_path)
                       OSError ;;
      rest <- read_attachments more ;;
      ret ({| content_type := docx_type;
              filename := basename file_path;
              base64_content := b64encode bytes |} :: rest)
  end.

(** The loop over the recipients, each an [(Email, Name)]. *)
Fixpoint build_messages (to_emails : list (str * str)) (subj : str)
    (files : list str) (full_name supervisor_name : option str)
    : M (list message) :=
  match to_emails with
  | [] => ret []
  | (email, role) :: more =>
      text_body <- cover_text role full_name supervisor_name ;;
      read <- read_attachments files ;;
      ms <- build_messages more subj files full_name supervisor_name ;;
      ret ({| from_email := lit "noreply@securemaildrop.uk";
              from_name := lit "Secure Maildrop";
              to_email := email; to_name := role; subject := subj;
              text_part := text_body;
              html_part := lit "<pre>" ++ text_body ++ lit "</pre>";
              attachments := read |} :: ms)
  end.

(** [body_text] is a parameter the function never uses. The recipients
    are [{"Email": .., "Name": ..}] with both keys. The body of the answer
    is decoded for the [print] of line 316 and again for the result. *)
Definition send_email_mailjet (to_emails : list (str * str)) (subj : str)
    (body_text : str) (files : list str)
    (full_name supervisor_name : option str) : M (N * json) :=
  ms <- build_messages to_emails subj files full_name supervisor_name ;;
  answer <- attempt (fun h => post h ms) (SendMail ms) RequestException ;;
  match snd answer with
  | Some v => ret (fst answer, v)
  | None => raise JSONDecodeError
  end.

(** [generate_response], the handler of [/generate]. The last line here is
    api.py 335; the lines after it need the time that it never yields.
    They are the functions above and below, of their inputs:
    [remove_original_query], [structure], [render], [send_email_mailjet]. *)
Definition generate_response (req : request) : M response :=
  match req with
  | BadJson =>
      ret {| status := 400;
             body := JDict [(lit "error", JStr (lit "Invalid JSON input"))] |}
  | Json data =>
      query_text <- data_get data "query" JNull ;;
      full_name <- data_get data "full_name" (JStr (lit "User")) ;;
      user_email <- data_get data "user_email" JNull ;;
      supervisor_email <- data_get data "supervisor_email" JNull ;;
      hr_email <- data_get data "hr_email" JNull ;;
      supervisor_name <-
        data_get data "supervisor_name" (JStr (lit "Supervisor")) ;;
      t <- datetime_utcnow ;;
      match t return M response with end
  end.

End Handler.

(** ** Vocabulary of the specification *)

(** The headings the structuring step recognises in an answer. *)
Definition headings (answer : str) : nat := count heading_re answer.

(** The text before the first heading. *)
Definition leading_text (answer : str) : str := hd [] (split heading_re answer).

Fixpoint starts_with_i (p s : str) : bool :=
  match p, s with
  | [], _ => true
  | a :: p', b :: s' => chr_i a b && starts_with_i p' s'
  | _ :: _, [] => false
  end.

(** One leading [marker], in any letter case, with the white space around
    it, cut from the front of [s]. *)
Definition cut_leading (marker : str) (s : str) : str :=
  let t := lstrip s in
  if starts_with_i marker t then lstrip (skipn (List.length marker) t) else s.

(** The body the loop stores for the leading text. *)
Definition lead_body (lead : str) : str :=
  cut_leading (lit "Hello,") (cut_leading (lit "Enquirer Reply") (strip lead)).

(** The body the loop stores under a heading. *)
Definition section_body (title content : str) : str :=
  if is_reply_title title then strip (join NL (cleaned_lines content))
  else content.

(** The sections an answer writes, in document order: [parts] are the
    titles and bodies that follow the leading text. *)
Fixpoint titled (parts : list str) : list (str * str) :=
  match parts with
  | t :: b :: more =>
      (if nonempty (strip t)
       then [(strip t, section_body (strip t) (strip b))] else [])
      ++ titled more
  | _ => []
  end.

Definition writes (answer : str) : list (str * str) :=
  match split heading_re answer with
  | lead :: more =>
      (if nonempty (strip lead)
       then [(lit "Enquirer Reply", lead_body lead)] else [])
      ++ titled more
  | [] => []
  end.

(** The keys of a list of writes in first-seen order, and the last value
    written under a key. *)
Fixpoint first_seen (ks : list str) : list str :=
  match ks with
  | [] => []
  | k :: ks' => k :: filter (fun k' => negb (str_eqb k' k)) (first_seen ks')
  end.

Fixpoint last_write (k : str) (ws : list (str * str)) : option str :=
  match ws with
  | [] => None
  | (k', v) :: ws' =>
      match last_write k ws' with
      | Some v' => Some v'
      | None => if str_eqb k k' then Some v else None
      end
  end.

(** The longest run of [p] at the front of a text, what follows it, and
    the character before a position reached by reading [w]. *)
Fixpoint take_while (p : N -> bool) (s : str) : str :=
  match s with
  | c :: t => if p c then c :: take_while p t else []
  | [] => []
  end.

Fixpoint drop_while (p : N -> bool) (s : str) : str :=
  match s with
  | c :: t => if p c then drop_while p t else s
  | [] => []
  end.

Definition after (prev : option N) (w : str) : option N :=
  fold_left (fun _ c => Some c) w prev.

Fixpoint starts_cls (cls : N -> N -> bool) (p s : str) : bool :=
  match p, s with
  | [], _ => true
  | a :: p', b :: s' => cls a b && starts_cls cls p' s'
  | _ :: _, [] => false
  end.

Definition suffix (u s : str) : Prop := exists w, s = w ++ u.

(** [^\s*MARKER\s*] under IGNORECASE, the shape of [lead_title_re] and
    [lead_hello_re]. *)
Definition leading_re (marker : str) : re :=
  Seq (Bol false)
      (Seq (Star true isspace) (Seq (seq_of chr_i marker) (Star true isspace))).

(** One write into the structured answer, and membership among keys. *)
Definition wr (d : dict) (kv : str * str) : dict :=
  dict_set (fst kv) (snd kv) d.

Definition mem (k : str) (ks : list str) : bool := existsb (str_eqb k) ks.

Definition is_hit (p : piece) : bool :=
  match p with Hit _ => true | Keep _ => false end.

(** Manual list prefixes. *)
Definition punct : N -> bool := oneof [46; 41]%N.

Definition all_of (p : N -> bool) (w : str) : Prop := forallb p w = true.

Definition at_most_one (p : N -> bool) (o : str) : Prop :=
  o = [] \/ exists c, o = [c] /\ p c = true.

(** What [number_prefix_re] asks for after its optional bullet. *)
Definition number_tail : re :=
  Seq (Star true isspace)
      (Seq (plus isdecimal) (Seq (opt punct) (Star true isspace))).

(** The text does not go on with a character of [p]. *)
Definition stops (p : N -> bool) (s : str) : Prop :=
  match s with c :: _ => p c = false | [] => True end.

(** What the two prefix patterns remove, read off them. After the optional
    bullet, [number_prefix_re] wants white space, digits, an optional ["."]
    or [")"] and white space; with no digit there it removes nothing. *)
Definition cut_punct (s : str) : str :=
  match s with
  | c :: t => if punct c then t else s
  | [] => []
  end.

Definition number_rest (s : str) : option str :=
  match lstrip s with
  | d :: v =>
      if isdecimal d
      then Some (lstrip (cut_punct (drop_while isdecimal v)))
      else None
  | [] => None
  end.

Definition cut_number (s : str) : str :=
  match s with
  | c :: t =>
      match number_rest (if bullet c then t else s) with
      | Some u => u
      | None => s
      end
  | [] => []
  end.

(** [bullet_prefix_re] removes one bullet and the white space after it. *)
Definition cut_bullet (s : str) : str :=
  match s with
  | c :: t => if bullet c then lstrip t else s
  | [] => []
  end.

(** The text of an entry once its prefix is gone: trimmed, and starting
    with neither bullet, digit nor list punctuation. *)
Definition entry_text (t : str) : Prop :=
  strip t = t /\
  match t with
  | c :: _ => bullet c = false /\ isdecimal c = false /\ punct c = false
  | [] => False
  end.

(** An original-query heading at the front of [s]: the marker in any
    letter case, then white space that holds a line break. *)
Fixpoint has_break (w : str) : bool :=
  match w with
  | c :: w' =>
      if oneof [13; 10]%N c then true
      else if isspace c then has_break w' else false
  | [] => false
  end.

Definition oq_marker : str := lit "### ORIGINAL QUERY".

Definition oq_head (s : str) : bool :=
  starts_with_i oq_marker s && has_break (skipn (List.length oq_marker) s).

(** The parts of [original_query_re] after the marker: the line break
    with what follows, and the white space before it. *)
Definition oq_break : re :=
  Seq (plus (oneof [13; 10]%N))
      (Seq (Star false any) (Ahead (Alt (text "###") EndZ))).

Definition oq_tail : re := Seq (Star true isspace) oq_break.

(** The look-ahead [(?=###|\Z)] as a continuation. *)
Definition at_end_or_marker : cont :=
  fun q u g =>
    match exec (Alt (text "###") EndZ) accept q u g with
    | Some _ => Some (u, g)
    | None => None
    end.

(** Where a match of [original_query_re] ends: at the end of the text or
    before a ["###"]. *)
Definition ends_ok (u : str) : Prop :=
  u = [] \/ starts_with (lit "###") u = true.

(** The text from its first ["###"] on, or nothing. *)
Fixpoint from_marker (s : str) : str :=
  if starts_with (lit "###") s then s
  else match s with
       | [] => []
       | _ :: t => from_marker t
       end.

(** What follows the original-query section that starts [s]: the text
    from the first ["###"] after the marker. *)
Definition after_section (s : str) : str :=
  from_marker (skipn (List.length oq_marker) s).

(** [cleaned s o]: [o] is [s] less its original-query sections, read from
    left to right: a character is kept where no section starts, and where
    one starts the reading goes on after it. *)
Inductive cleaned : str -> str -> Prop :=
| cleaned_nil : cleaned [] []
| cleaned_keep c t o :
    oq_head (c :: t) = false -> cleaned t o -> cleaned (c :: t) (c :: o)
| cleaned_drop s o :
    oq_head s = true -> cleaned (after_section s) o -> cleaned s o.

(** No original-query heading starts anywhere in [o]. *)
Definition no_oq_head (o : str) : Prop :=
  forall pre post, o = pre ++ post -> oq_head post = false.

(** What [re.sub] with an empty replacement leaves of the pieces of a
    scan. *)
Definition kept (ps : list piece) : str :=
  flat_map (fun p => match p with Keep c => [c] | Hit g => erase g end) ps.

(** *** The scenario of the specification *)

Definition scenario_draft : str :=
  lit "### Client Reply" ++ NL ++ lit "Hello." ++ NL
  ++ lit "### Action Sheet" ++ NL ++ lit "1. File accounts" ++ NL
  ++ lit "- Notify HR".

Definition scenario_claimed : dict :=
  [ (lit "Client Reply", lit "Hello.");
    (lit "Action Sheet", lit "File accounts" ++ NL ++ lit "Notify HR") ].

Definition scenario_structured : dict :=
  [ (lit "Client Reply", lit "Hello.");
    (lit "Action Sheet", lit "1. File accounts" ++ NL ++ lit "- Notify HR") ].

(** *** Statements of the specification that the code does not meet, as
    the specification words them *)

Definition fallback_for_every_headingless_text : Prop :=
  forall answer, headings answer = 0 ->
    structure answer = [(lit "Initial Response", strip answer)].

Definition at_most_one_section_per_normalized_heading : Prop :=
  forall answer,
    List.length (structure answer) <= headings answer
    /\ (forall k1 k2, In k1 (keys (structure answer)) ->
                      In k2 (keys (structure answer)) ->
                      lower k1 = lower k2 -> k1 = k2).

Definition scenario_mapping_as_specified : Prop :=
  structure scenario_draft = scenario_claimed.

Definition leading_section_never_greets : Prop :=
  forall answer, strip (leading_text answer) <> [] ->
    exists body,
      dict_get (lit "Enquirer Reply") (structure answer) = Some body
      /\ display_title (lit "Enquirer Reply") = lit "Initial Response"
      /\ hd [] (splitlines body) <> lit "Hello,".

(** The parsed body is an object with the field [k]. *)
Definition has_field (k : string) (data : json) : bool :=
  match data with
  | JDict d => existsb (fun kv => str_eqb (lit k) (fst kv)) d
  | _ => false
  end.

(** "Any manual bullet or number prefix" is removed: the markers of a
    hand-written list, before the entry of the specification. *)
Definition manual_markers : list str :=
  [lit "-"; lit "*"; lit "+"; [8226%N]; [8211%N];
   lit "1."; lit "1)"; lit "(1)"; lit "a)"].

Definition every_manual_prefix_is_removed : Prop :=
  forall marker, In marker manual_markers ->
    clean_entry (marker ++ lit " Do X") = lit "Do X".

Definition original_query_never_structured : Prop :=
  forall answer,
    dict_get (lit "ORIGINAL QUERY") (structure (remove_original_query answer))
    = None.

(** The context that [generate_response] passes on when no index is
    loaded, api.py 360. *)
Definition no_index_context : str :=
  lit "Policy lookup not available (FAISS index not loaded).".

(** *** A chat model for the examples *)

Definition example_chat : history -> str -> N -> str :=
  fun _ _ _ => lit "Hello," ++ NL ++ lit "VAT is due quarterly.".

(** *** The input of the review *)

(** The sign-offs of [signoff_re], and a text that begins with one of them
    in any letter case. *)
Definition signoffs : list str :=
  [lit "Best regards,"; lit "Yours sincerely,"; lit "Kind regards,"].

Definition starts_signoff (s : str) : bool :=
  existsb (fun p => starts_with_i p s) signoffs.

(** The text before the first position at which [P] holds of the rest. *)
Fixpoint before (P : str -> bool) (s : str) : str :=
  if P s then []
  else match s with
       | [] => []
       | c :: t => c :: before P t
       end.

(** [P] holds of the text from some position on. *)
Definition occurs (P : str -> bool) (s : str) : Prop :=
  exists pre post, s = pre ++ post /\ P post = true.

(** [u] is a stretch of [s]. *)
Definition infix (u s : str) : Prop := exists a b, s = a ++ u ++ b.

(** *** The paragraphs of a section *)

(** A section heading: the one run of the paragraph is set in 12 points. *)
Definition is_heading (p : paragraph) : bool :=
  match runs p with
  | [r] => match size r with Some pt => (pt =? 12)%N | None => false end
  | _ => false
  end.

(** Any character but the asterisk. *)
Definition nostar : N -> bool := fun c => negb (c =? 42)%N.

(** ** [add_markdown_bold] *)

(** The pattern of the split, one group: two asterisks, one or more
    characters other than the asterisk, two asterisks. *)
Definition bold_part_re : re :=
  Grp (Seq (text "**") (Seq (plus nostar) (text "**"))).

Definition ends_with (p s : str) : bool := starts_with (rev p) (rev s).

(** [part[2:-2]]. *)
Definition inner (part : str) : str :=
  firstn (List.length part - 4) (skipn 2 part).

(** [paragraph.add_run(t)], with [run.bold = True] after it or not. *)
Definition add_run (t : str) (b : bool) (p : paragraph) : paragraph :=
  {| style := style p;
     runs := runs p ++ [{| rtext := t; bold := b; italic := false;
                           size := None |}];
     left_indent := left_indent p |}.

Definition add_part (p : paragraph) (part : str) : paragraph :=
  if starts_with (lit "**") part && ends_with (lit "**") part
  then add_run (inner part) true p
  else add_run part false p.

Definition add_markdown_bold (p : paragraph) (text : str) : paragraph :=
  fold_left add_part (split bold_part_re text) p.

(** *** Greeting lines *)

(** [t] is [p] in some letter case. *)
Definition eq_i (p t : str) : bool :=
  starts_with_i p t && (List.length t =? List.length p).

Definition greetings : list str :=
  [lit "enquirer reply"; lit "hello"; lit "hello,"].

(** A line that, trimmed, is only a greeting or the name of the reply
    section, in any letter case. *)
Definition is_greeting (line : str) : bool :=
  existsb (fun p => eq_i p (strip line)) greetings.

(** The end of [greeting_line_re], and whether an attempt matched. *)
Definition greeting_tail : re := Seq (Star true isspace) Eol.

Definition matched (o : option outcome) : bool :=
  match o with Some _ => true | None => false end.

(** ** [google_search.py] *)

(** What [for item in items] goes through, when [items] can be iterated:
    the elements of a list, the keys of a [dict], the characters of a
    [str]. *)
Definition iterate (items : json) : option (list json) :=
  match items with
  | JList l => Some l
  | JDict d => Some (map (fun kv => JStr (fst kv)) d)
  | JStr s => Some (map (fun c => JStr [c]) s)
  | _ => None
  end.

Section GoogleSearch.

(** [str(v)] for a value that is not a string. *)
Variable show : json -> str.

(** The request: [requests.get] with the key, the engine, the query and the
    number of results, then [raise_for_status] and [json]; [None] when one
    of them raises. *)
Variable http_get : str -> N -> option json.

(** A value inside an f-string. *)
Definition format_value (v : json) : str :=
  match v with JStr s => s | _ => show v end.

(** The body of the loop; [None] when [item.get] raises. *)
Definition format_item (item : json) : option str :=
  match item with
  | JDict d =>
      let title := json_get (lit "title") (JStr []) d in
      let snippet := json_get (lit "snippet") (JStr []) d in
      let link := json_get (lit "link") (JStr []) d in
      Some ([8226; 32]%N ++ format_value title ++ NL ++ lit "  "
            ++ format_value snippet ++ NL ++ lit "  " ++ format_value link)
  | _ => None
  end.

Fixpoint format_items (items : list json) : option (list str) :=
  match items with
  | [] => Some []
  | item :: rest =>
      match format_item item with
      | Some r =>
          match format_items rest with
          | Some rs => Some (r :: rs)
          | None => None
          end
      | None => None
      end
  end.

Definition search_failed : list str :=
  [lit "Error fetching Google search results."].

Definition fetch_google_news (query : str) (num_results : N) : list str :=
  match http_get query num_results with
  | Some (JDict data) =>
      match iterate (json_get (lit "items") (JList []) data) with
      | Some items =>
          match format_items items with
          | Some [] => [lit "No Google search results found."]
          | Some results => results
          | None => search_failed
          end
      | None => search_failed
      end
  | _ => search_failed
  end.

End GoogleSearch.

Definition is_dict (v : json) : bool :=
  match v with JDict _ => true | _ => false end.

(** *** What [send_email_mailjet] posts *)

(** The recipient is the one the enquirer's letter is for. *)
Definition named (full_name : option str) (r : str * str) : bool :=
  is_name (snd r) full_name.

Definition only_reads (evs : list event) : Prop := forallb is_read evs = true.

(** One attachment for each file, named by its base name. *)
Definition attachments_ok (basename : str -> str) (files : list str)
    (atts : list attachment) : Prop :=
  map filename atts = map basename files
  /\ Forall (fun a => content_type a = docx_type) atts.

Definition message_ok (basename : str -> str) (subj : str) (files : list str)
    (m : message) : Prop :=
  from_email m = lit "noreply@securemaildrop.uk"
  /\ from_name m = lit "Secure Maildrop"
  /\ subject m = subj
  /\ html_part m = lit "<pre>" ++ text_part m ++ lit "</pre>"
  /\ attachments_ok basename files (attachments m).

(** Every file is read once for each recipient. *)
Definition all_reads (to_emails : list (str * str)) (files : list str)
    : list event :=
  map ReadFile (flat_map (fun _ => files) to_emails).

(** * Properties *)

(** ** Strings and dictionaries *)

Lemma str_eqb_eq a b : str_eqb a b = true <-> a = b.
Proof.
  unfold str_eqb. destruct (list_eq_dec N.eq_dec a b); split; congruence.
Qed.

Lemma str_eqb_refl a : str_eqb a a = true.
Proof. apply str_eqb_eq. reflexivity. Qed.

Lemma str_eqb_neq a b : str_eqb a b = false <-> a <> b.
Proof.
  unfold str_eqb. destruct (list_eq_dec N.eq_dec a b); split; congruence.
Qed.

(** ** The review pass *)

(** C6. A draft longer than the threshold is returned as it is, and the
    first call to the chat model is the only one: no review, hence no
    sign-off removal and no truncation. *)
Theorem long_draft_bypasses_review
    (chat : history -> str -> N -> str)
    (accounting_review generic_review : str -> str)
    (prompt discipline : str) (h : history) :
  let draft := strip (chat h prompt 1800%N) in
  1500 < List.length draft ->
  generate_reviewed_response chat accounting_review generic_review
                             prompt discipline h
  = (Ok draft, h ++ [Chat prompt 1800%N]).
Proof.
  intros draft Hlong.
  unfold generate_reviewed_response, bind, call.
  fold draft. unfold review_threshold.
  apply Nat.ltb_lt in Hlong. now rewrite Hlong.
Qed.

Lemma long_draft_bypasses_review_witness :
  let chat := fun (_ : history) (_ : str) (_ : N) =>
                lit "Dear client. Best regards, " ++ repeat 97%N 2100 in
  1500 < List.length (strip (chat [] (lit "q") 1800%N))
  /\ generate_reviewed_response chat (fun s => s) (fun s => s)
                                (lit "q") (lit "Accounting") []
     = (Ok (lit "Dear client. Best regards, " ++ repeat 97%N 2100),
        [Chat (lit "q") 1800%N]).
Proof.
  intro chat.
  assert (E : strip (chat [] (lit "q") 1800%N)
              = lit "Dear client. Best regards, " ++ repeat 97%N 2100)
    by (vm_compute; reflexivity).
  assert (L : 1500 < List.length (strip (chat [] (lit "q") 1800%N)))
    by (rewrite E; vm_compute; lia).
  split; [exact L|].
  rewrite <- E.
  exact (@long_draft_bypasses_review chat (fun s => s) (fun s => s)
           (lit "q") (lit "Accounting") [] L).
Defined.

(** ** The matcher *)

Lemma orelse_none_r (a : option outcome) : orelse a None = a.
Proof. now destruct a. Qed.

Lemma drop_while_isspace s : drop_while isspace s = lstrip s.
Proof. induction s as [|c t IH]; simpl; [reflexivity|]. now rewrite IH. Qed.

Lemma take_drop_while p s : take_while p s ++ drop_while p s = s.
Proof.
  induction s as [|c t IH]; simpl; [reflexivity|].
  destruct (p c); simpl; [now rewrite IH | reflexivity].
Qed.

Lemma take_while_all p s : forallb p (take_while p s) = true.
Proof.
  induction s as [|c t IH]; simpl; [reflexivity|].
  destruct (p c) eqn:E; simpl; [now rewrite E | reflexivity].
Qed.

Lemma take_while_app p w s :
  forallb p w = true -> take_while p (w ++ s) = w ++ take_while p s.
Proof.
  induction w as [|c w IH]; simpl; [reflexivity|].
  intros H. apply andb_true_iff in H as [Hc Hw]. now rewrite Hc, IH.
Qed.

Lemma drop_while_app p w s :
  forallb p w = true -> drop_while p (w ++ s) = drop_while p s.
Proof.
  induction w as [|c w IH]; simpl; [reflexivity|].
  intros H. apply andb_true_iff in H as [Hc Hw]. now rewrite Hc, IH.
Qed.

Lemma drop_while_stop p c t : p c = false -> drop_while p (c :: t) = c :: t.
Proof. intros H. simpl. now rewrite H. Qed.

Lemma take_while_stop p c t : p c = false -> take_while p (c :: t) = [].
Proof. intros H. simpl. now rewrite H. Qed.

(** A greedy star followed by something that never starts on a [p]
    commits to the longest run. *)
Lemma star_greedy_commit p k prev u :
  (forall q c t, p c = true -> k q (c :: t) = None) ->
  star_greedy p k prev u
  = k (after prev (take_while p u)) (drop_while p u).
Proof.
  intros Hk. revert prev.
  induction u as [|c t IH]; intros prev; simpl; [reflexivity|].
  destruct (p c) eqn:E; simpl; [|reflexivity].
  rewrite (Hk _ _ _ E), orelse_none_r. apply IH.
Qed.

(** A greedy star takes the longest run whenever what follows accepts
    there. *)
Lemma star_greedy_max p k prev u m :
  k (after prev (take_while p u)) (drop_while p u) = Some m ->
  star_greedy p k prev u = Some m.
Proof.
  revert prev.
  induction u as [|c t IH]; intros prev; simpl; [auto|].
  destruct (p c) eqn:E; simpl; [|auto].
  intros H. now rewrite (IH _ H).
Qed.

Lemma exec_seq_of cls l k prev s g :
  exec (seq_of cls l) k prev s g
  = if starts_cls cls l s
    then k (after prev (firstn (List.length l) s)) (skipn (List.length l) s) g
    else None.
Proof.
  revert prev s.
  induction l as [|a l IH]; intros prev s; simpl; [reflexivity|].
  destruct s as [|b s]; [reflexivity|].
  destruct (cls a b); simpl; [apply IH | reflexivity].
Qed.

Lemma starts_cls_chr l s : starts_cls chr l s = starts_with l s.
Proof.
  revert s. induction l as [|a l IH]; intros [|b s]; simpl; try reflexivity.
  now rewrite IH.
Qed.

Lemma starts_cls_chr_i l s : starts_cls chr_i l s = starts_with_i l s.
Proof.
  revert s. induction l as [|a l IH]; intros [|b s]; simpl; try reflexivity.
  now rewrite IH.
Qed.

(** *** Patterns anchored at the start of the text *)

Lemma scan_anchored r n c s :
  scan (Seq (Bol false) r) n (Some c) s = map Keep (skipn n s).
Proof.
  revert n c. induction s as [|d t IH]; intros n c.
  - now destruct n.
  - destruct n as [|n]; simpl.
    + unfold match_at. simpl. f_equal. apply (IH 0).
    + apply IH.
Qed.

Lemma flat_map_keep (repl : option str -> str) s :
  flat_map (fun p => match p with Keep c => [c] | Hit g => repl g end)
           (map Keep s) = s.
Proof. induction s as [|c t IH]; simpl; [reflexivity|]. now rewrite IH. Qed.

Lemma sub_anchored r repl s :
  sub (Seq (Bol false) r) repl s
  = match match_at (Seq (Bol false) r) None s with
    | Some (S n, g) => repl g ++ skipn (S n) s
    | _ => s
    end.
Proof.
  unfold sub. destruct s as [|c t].
  - unfold match_at. destruct (exec _ _ _ _ _) as [[u g]|]; reflexivity.
  - cbn [scan].
    destruct (match_at (Seq (Bol false) r) None (c :: t)) as [[[|n] g]|];
      cbn [flat_map]; rewrite scan_anchored, flat_map_keep; reflexivity.
Qed.

(** *** Suffixes *)

Lemma suffix_refl s : suffix s s.
Proof. now exists []. Qed.

Lemma suffix_trans u v s : suffix u v -> suffix v s -> suffix u s.
Proof.
  intros [w1 ->] [w2 ->]. exists (w2 ++ w1). now rewrite app_assoc.
Qed.

Lemma suffix_skipn n s : suffix (skipn n s) s.
Proof. exists (firstn n s). now rewrite firstn_skipn. Qed.

Lemma suffix_drop_while p s : suffix (drop_while p s) s.
Proof. exists (take_while p s). now rewrite take_drop_while. Qed.

Lemma suffix_lstrip s : suffix (lstrip s) s.
Proof. rewrite <- drop_while_isspace. apply suffix_drop_while. Qed.

Lemma suffix_cons u c s : suffix u s -> suffix u (c :: s).
Proof. intros [w ->]. now exists (c :: w). Qed.

Lemma suffix_length u s : suffix u s -> List.length u <= List.length s.
Proof. intros [w ->]. rewrite length_app. lia. Qed.

Lemma skipn_suffix u s :
  suffix u s -> skipn (List.length s - List.length u) s = u.
Proof.
  intros [w ->]. rewrite length_app.
  replace (List.length w + List.length u - List.length u) with (List.length w) by lia.
  now rewrite skipn_app, skipn_all, Nat.sub_diag.
Qed.

Lemma suffix_length_eq u s :
  suffix u s -> List.length s - List.length u = 0 -> u = s.
Proof.
  intros [w ->] H. rewrite length_app in H.
  destruct w; [reflexivity | cbn [List.length] in H; lia].
Qed.

(** What an anchored pattern leaves of a text when its match ends at the
    suffix [u]. *)
Lemma sub_anchored_suffix r s u g :
  exec (Seq (Bol false) r) accept None s None = Some (u, g) ->
  suffix u s ->
  sub (Seq (Bol false) r) erase s = u.
Proof.
  intros E Hu. rewrite sub_anchored. unfold match_at. rewrite E.
  destruct (List.length s - List.length u) as [|n] eqn:L.
  - symmetry. now apply suffix_length_eq.
  - rewrite <- L. unfold erase. simpl. now apply skipn_suffix.
Qed.

Lemma sub_anchored_none r s :
  exec (Seq (Bol false) r) accept None s None = None ->
  sub (Seq (Bol false) r) erase s = s.
Proof. intros E. rewrite sub_anchored. unfold match_at. now rewrite E. Qed.

Lemma star_greedy_accept p prev u (g : option str) :
  star_greedy p (fun _ v => Some (v, g)) prev u = Some (drop_while p u, g).
Proof. apply star_greedy_max. reflexivity. Qed.

(** *** [^\s*MARKER\s*] under IGNORECASE *)

Lemma sub_leading a l s :
  (forall c, chr_i a c = true -> isspace c = false) ->
  sub (leading_re (a :: l)) erase s = cut_leading (a :: l) s.
Proof.
  intros Ha. unfold cut_leading.
  set (m := a :: l).
  assert (E : exec (leading_re m) accept None s None
              = if starts_with_i m (lstrip s)
                then Some (lstrip (skipn (List.length m) (lstrip s)), None)
                else None).
  { unfold leading_re. cbn [exec].
    rewrite star_greedy_commit.
    - rewrite exec_seq_of, starts_cls_chr_i, drop_while_isspace.
      destruct (starts_with_i m (lstrip s)); [|reflexivity].
      cbn [exec]. unfold accept.
      now rewrite star_greedy_accept, drop_while_isspace.
    - intros q c t Hc. rewrite exec_seq_of. subst m. cbn [starts_cls].
      destruct (chr_i a c) eqn:Hac; [|reflexivity].
      apply Ha in Hac. congruence. }
  destruct (starts_with_i m (lstrip s)).
  - apply (sub_anchored_suffix _ E).
    eapply suffix_trans; [apply suffix_lstrip|].
    eapply suffix_trans; [apply suffix_skipn | apply suffix_lstrip].
  - now apply sub_anchored_none.
Qed.

(** ** Character classes *)

Ltac bool_hyp H :=
  repeat (rewrite ?orb_true_iff, ?andb_true_iff, ?orb_false_iff,
                  ?andb_false_iff, ?negb_true_iff, ?negb_false_iff,
                  ?N.leb_le, ?N.leb_gt, ?N.ltb_lt, ?N.ltb_ge,
                  ?N.eqb_eq, ?N.eqb_neq in H).

Ltac split_ifs H :=
  repeat match type of H with
         | context [if ?b then _ else _] =>
             let E := fresh "E" in destruct b eqn:E
         end.

Ltac to_prop :=
  repeat match goal with
         | H : _ = true |- _ => progress bool_hyp H
         | H : _ = false |- _ => progress bool_hyp H
         end.

Lemma isspace_range c :
  isspace c = true -> (9 <= c <= 32)%N \/ (133 <= c)%N.
Proof. unfold isspace, between. intros H. to_prop. lia. Qed.

(** Under IGNORECASE a capital Basic Latin letter matches no white
    space. *)
Lemma chr_i_not_space a c :
  (65 <= a <= 90)%N ->
  chr_i a c = true -> isspace c = false.
Proof.
  intros Ha H. destruct (isspace c) eqn:S; [|reflexivity].
  exfalso.
  unfold chr_i, case_fixes, simple_lower, between in H.
  unfold isspace, between in S.
  split_ifs H; cbn [existsb] in H; to_prop; lia.
Qed.

Lemma sub_lead_title s :
  sub lead_title_re erase s = cut_leading (lit "Enquirer Reply") s.
Proof.
  change lead_title_re with (leading_re (lit "Enquirer Reply")).
  apply sub_leading. intros c. apply chr_i_not_space. vm_compute. split; discriminate.
Qed.

Lemma sub_lead_hello s :
  sub lead_hello_re erase s = cut_leading (lit "Hello,") s.
Proof.
  change lead_hello_re with (leading_re (lit "Hello,")).
  apply sub_leading. intros c. apply chr_i_not_space. vm_compute. split; discriminate.
Qed.

(** ** Dictionaries *)

Lemma str_eqb_sym a b : str_eqb a b = str_eqb b a.
Proof.
  destruct (str_eqb a b) eqn:E.
  - apply str_eqb_eq in E. subst. now rewrite str_eqb_refl.
  - apply str_eqb_neq in E. symmetry. apply str_eqb_neq. congruence.
Qed.

Lemma dict_get_set k k' v d :
  dict_get k (dict_set k' v d)
  = if str_eqb k k' then Some v else dict_get k d.
Proof.
  induction d as [|[k0 v0] d IH]; simpl.
  - reflexivity.
  - destruct (str_eqb k' k0) eqn:E0; simpl.
    + apply str_eqb_eq in E0. subst k0.
      destruct (str_eqb k k'); reflexivity.
    + destruct (str_eqb k k0) eqn:E1.
      * apply str_eqb_eq in E1. subst k0.
        rewrite str_eqb_sym in E0. now rewrite E0.
      * apply IH.
Qed.

Lemma keys_set k v d :
  keys (dict_set k v d) = if mem k (keys d) then keys d else keys d ++ [k].
Proof.
  unfold keys, mem. induction d as [|[k0 v0] d IH]; simpl.
  - reflexivity.
  - destruct (str_eqb k k0) eqn:E0; simpl.
    + reflexivity.
    + rewrite IH. now destruct (existsb (str_eqb k) (map fst d)).
Qed.

Lemma length_set k v d :
  List.length (dict_set k v d) <= S (List.length d).
Proof.
  induction d as [|[k0 v0] d IH]; simpl; [lia|].
  destruct (str_eqb k k0); simpl; lia.
Qed.

Lemma length_fold_wr ws d :
  List.length (fold_left wr ws d) <= List.length d + List.length ws.
Proof.
  revert d. induction ws as [|[k v] ws IH]; intros d; simpl; [lia|].
  etransitivity; [apply IH|]. unfold wr. cbn [fst snd].
  pose proof (length_set k v d). lia.
Qed.

Lemma get_fold_wr k ws d :
  dict_get k (fold_left wr ws d)
  = match last_write k ws with
    | Some v => Some v
    | None => dict_get k d
    end.
Proof.
  revert d. induction ws as [|[k' v] ws IH]; intros d; simpl; [reflexivity|].
  rewrite IH. destruct (last_write k ws); [reflexivity|].
  unfold wr. simpl. rewrite dict_get_set. now destruct (str_eqb k k').
Qed.

Lemma filter_filter_absorb (ks : list str) k X :
  mem k ks = true ->
  filter (fun x => negb (mem x ks)) (filter (fun x => negb (str_eqb x k)) X)
  = filter (fun x => negb (mem x ks)) X.
Proof.
  intros Hk. induction X as [|x X IH]; simpl; [reflexivity|].
  destruct (str_eqb x k) eqn:E; simpl.
  - apply str_eqb_eq in E. subst x. now rewrite Hk.
  - now rewrite IH.
Qed.

Lemma mem_app k ks k' :
  mem k (ks ++ [k']) = mem k ks || str_eqb k k'.
Proof.
  unfold mem. rewrite existsb_app. simpl. now rewrite orb_false_r.
Qed.

Lemma filter_filter_split (ks : list str) k X :
  filter (fun x => negb (mem x (ks ++ [k]))) X
  = filter (fun x => negb (mem x ks)) (filter (fun x => negb (str_eqb x k)) X).
Proof.
  induction X as [|x X IH]; simpl; [reflexivity|].
  rewrite mem_app, negb_orb.
  destruct (str_eqb x k); simpl.
  - now rewrite andb_false_r.
  - rewrite andb_true_r. destruct (mem x ks); simpl; now rewrite IH.
Qed.

Lemma keys_fold_wr ws d :
  keys (fold_left wr ws d)
  = keys d ++ filter (fun x => negb (mem x (keys d)))
                     (first_seen (map fst ws)).
Proof.
  revert d. induction ws as [|[k v] ws IH]; intros d; simpl.
  - now rewrite app_nil_r.
  - rewrite IH. unfold wr at 1 2. simpl. rewrite keys_set.
    destruct (mem k (keys d)) eqn:E; simpl.
    + now rewrite filter_filter_absorb.
    + rewrite <- app_assoc. simpl. now rewrite filter_filter_split.
Qed.

Lemma filter_all (A : Type) (l : list A) : filter (fun _ => true) l = l.
Proof. induction l; simpl; congruence. Qed.

Lemma keys_fold_wr_nil ws :
  keys (fold_left wr ws []) = first_seen (map fst ws).
Proof. rewrite keys_fold_wr. simpl. apply filter_all. Qed.

Lemma fold_wr_head k v d ws :
  exists v' d', fold_left wr ws ((k, v) :: d) = (k, v') :: d'.
Proof.
  revert v d. induction ws as [|[k' w] ws IH]; intros v d; simpl.
  - now exists v, d.
  - unfold wr at 2. simpl. destruct (str_eqb k' k); apply IH.
Qed.

(** ** The structuring loop, two parts at a time *)

Lemma pair_ind (A : Type) (P : list A -> Prop) :
  P [] -> (forall x, P [x]) -> (forall x y l, P l -> P (x :: y :: l)) ->
  forall l, P l.
Proof.
  intros H0 H1 H2 l.
  enough (P l /\ forall x, P (x :: l)) by tauto.
  induction l as [|a l [IH1 IH2]]; split; auto.
Qed.

Lemma odd_mod j : (2 * j + 1) mod 2 = 1.
Proof.
  rewrite Nat.add_comm, Nat.mul_comm, Nat.Div0.mod_add. reflexivity.
Qed.

Lemma even_mod j : (2 * j + 2) mod 2 = 0.
Proof.
  replace (2 * j + 2) with (0 + (j + 1) * 2) by lia.
  rewrite Nat.Div0.mod_add. reflexivity.
Qed.

Lemma step_title j t st :
  step (2 * j + 1) t st
  = {| structured := structured st; current_title := Some (strip t) |}.
Proof.
  unfold step. rewrite odd_mod.
  replace (2 * j + 1 =? 0) with false by (symmetry; apply Nat.eqb_neq; lia).
  reflexivity.
Qed.

Lemma step_body j b d title :
  step (2 * j + 2) b {| structured := d; current_title := Some title |}
  = {| structured :=
         if nonempty title
         then dict_set title (section_body title (strip b)) d else d;
       current_title := Some title |}.
Proof.
  unfold step. rewrite even_mod.
  replace (2 * j + 2 =? 0) with false by (symmetry; apply Nat.eqb_neq; lia).
  cbn [andb Nat.eqb structured current_title].
  destruct (nonempty title); reflexivity.
Qed.

Lemma step_lead lead :
  structured (step 0 lead {| structured := []; current_title := None |})
  = if nonempty (strip lead) then [(lit "Enquirer Reply", lead_body lead)]
    else [].
Proof.
  unfold step. cbn [Nat.eqb andb].
  destruct (nonempty (strip lead)); [|reflexivity].
  cbn [structured dict_set]. unfold lead_body.
  now rewrite sub_lead_title, sub_lead_hello.
Qed.

Lemma loop_titled more :
  forall j st,
    structured (loop (2 * j + 1) more st)
    = fold_left wr (titled more) (structured st).
Proof.
  induction more as [| t | t b more IH] using pair_ind; intros j st.
  - reflexivity.
  - cbn [loop]. now rewrite step_title.
  - cbn [loop]. rewrite step_title.
    replace (S (2 * j + 1)) with (2 * j + 2) by lia.
    rewrite step_body.
    replace (S (2 * j + 2)) with (2 * S j + 1) by lia.
    rewrite IH. cbn [structured titled].
    rewrite fold_left_app.
    destruct (nonempty (strip t)); reflexivity.
Qed.

Lemma split_pieces_cons cur ps :
  exists lead more, split_pieces cur ps = lead :: more.
Proof.
  revert cur. induction ps as [|[c|g] ps IH]; intros cur; simpl; eauto.
Qed.

Lemma length_split_pieces cur ps :
  List.length (split_pieces cur ps) = 2 * List.length (filter is_hit ps) + 1.
Proof.
  revert cur. induction ps as [|[c|g] ps IH]; intros cur; simpl.
  - reflexivity.
  - apply IH.
  - rewrite IH. lia.
Qed.

Lemma length_titled more : 2 * List.length (titled more) <= List.length more.
Proof.
  induction more as [| t | t b more IH] using pair_ind; simpl; try lia.
  rewrite length_app. destruct (nonempty (strip t)); simpl; lia.
Qed.

(** The structured answer is the fallback, or what the writes of the
    answer leave in the dictionary. *)
Lemma structure_writes answer :
  structure answer
  = match fold_left wr (writes answer) [] with
    | [] => [(lit "Initial Response", strip answer)]
    | d => d
    end.
Proof.
  unfold structure, writes.
  destruct (split_pieces_cons [] (scan heading_re 0 None answer))
    as (lead & more & E).
  unfold split. rewrite E. cbn [loop].
  pose proof (loop_titled more 0
                (step 0 lead {| structured := []; current_title := None |}))
    as L.
  cbn [Nat.mul Nat.add] in L. rewrite L, step_lead, fold_left_app.
  destruct (nonempty (strip lead)); reflexivity.
Qed.

Lemma length_writes answer :
  List.length (writes answer) <= headings answer + 1.
Proof.
  unfold writes, headings, count, split.
  pose proof (length_split_pieces [] (scan heading_re 0 None answer)) as L.
  destruct (split_pieces [] (scan heading_re 0 None answer)) as [|lead more];
    [simpl; lia|].
  cbn [List.length] in L. rewrite length_app.
  pose proof (length_titled more).
  change (fun p : piece => match p with Hit _ => true | Keep _ => false end)
    with is_hit.
  destruct (nonempty (strip lead)); simpl; lia.
Qed.

(** ** Answers without headings *)

Lemma scan_no_hit r prev s :
  filter is_hit (scan r 0 prev s) = [] -> scan r 0 prev s = map Keep s.
Proof.
  revert prev. induction s as [|c t IH]; intros prev; [reflexivity|].
  cbn [scan map].
  destruct (match_at r prev (c :: t)) as [[[|n] g]|]; cbn [filter is_hit];
    try discriminate; intros H; f_equal; now apply IH.
Qed.

Lemma split_pieces_keep cur s : split_pieces cur (map Keep s) = [rev cur ++ s].
Proof.
  revert cur. induction s as [|c t IH]; intros cur; simpl.
  - now rewrite app_nil_r.
  - rewrite IH. simpl. now rewrite <- app_assoc.
Qed.

Lemma split_no_heading answer :
  headings answer = 0 -> split heading_re answer = [answer].
Proof.
  unfold headings, count, split. intros H.
  apply length_zero_iff_nil in H.
  rewrite (scan_no_hit _ _ _ H). apply split_pieces_keep.
Qed.

Lemma nonempty_false s : nonempty s = false <-> s = [].
Proof. destruct s; simpl; split; congruence. Qed.

Lemma nonempty_true s : nonempty s = true <-> s <> [].
Proof. destruct s; simpl; split; congruence. Qed.

(** C1, as the code has it. An answer without headings gives exactly one
    section. A blank answer gives the fallback "Initial Response" with the
    trimmed (empty) text; any other answer gives the section "Enquirer
    Reply", displayed as "Initial Response", whose body is the trimmed
    text less one leading "Enquirer Reply" and then one leading "Hello,". *)
Theorem headingless_answer_gives_one_section (answer : str) :
  headings answer = 0 ->
  (strip answer = []
   /\ structure answer = [(lit "Initial Response", strip answer)])
  \/ (strip answer <> []
      /\ structure answer = [(lit "Enquirer Reply", lead_body answer)]
      /\ display_title (lit "Enquirer Reply") = lit "Initial Response").
Proof.
  intros H. rewrite structure_writes. unfold writes.
  rewrite (split_no_heading _ H). cbn [titled]. rewrite app_nil_r.
  destruct (nonempty (strip answer)) eqn:E.
  - right. apply nonempty_true in E. repeat split; auto.
  - left. apply nonempty_false in E. split; auto.
Qed.

Lemma headingless_answer_gives_one_section_witness :
  headings (lit "Hello, world") = 0
  /\ structure (lit "Hello, world") = [(lit "Enquirer Reply", lit "world")].
Proof.
  assert (H : headings (lit "Hello, world") = 0) by (vm_compute; reflexivity).
  split; [exact H|].
  destruct (headingless_answer_gives_one_section (lit "Hello, world") H)
    as [[E _] | (_ & S & _)].
  - vm_compute in E. discriminate E.
  - rewrite S. vm_compute. reflexivity.
Defined.

(** The fallback of the specification fails on a greeting without
    headings: the section is "Enquirer Reply" and the greeting is gone. *)
Lemma fallback_for_every_headingless_text_fails :
  ~ fallback_for_every_headingless_text.
Proof.
  intros H. specialize (H (lit "Hello, world")).
  vm_compute in H. specialize (H eq_refl). discriminate H.
Qed.

(** ** Order and replacement of sections *)

Lemma fold_wr_nonempty ws :
  ws <> [] -> fold_left wr ws [] <> [].
Proof.
  destruct ws as [|[k v] ws]; [congruence|]. intros _. simpl.
  unfold wr at 2. simpl.
  destruct (fold_wr_head k v [] ws) as (v' & d' & E). now rewrite E.
Qed.

(** C2, as the code has it. There are at most as many sections as headings
    plus one, for the leading text. When the answer writes no section the
    fallback is the only one; otherwise the titles stand in first-seen
    order and each holds the body written last under exactly that title. *)
Theorem sections_in_first_seen_order_last_write_wins (answer : str) :
  List.length (structure answer) <= headings answer + 1
  /\ ((writes answer = []
       /\ structure answer = [(lit "Initial Response", strip answer)])
      \/ (writes answer <> []
          /\ keys (structure answer) = first_seen (map fst (writes answer))
          /\ forall k, dict_get k (structure answer)
                       = last_write k (writes answer))).
Proof.
  rewrite structure_writes.
  destruct (writes answer) as [|w ws] eqn:W.
  - cbn [fold_left List.length]. split; [lia|]. left. auto.
  - assert (N : fold_left wr (w :: ws) [] <> [])
      by (apply fold_wr_nonempty; congruence).
    destruct (fold_left wr (w :: ws) []) as [|e d] eqn:F; [congruence|].
    rewrite <- F. split.
    + pose proof (length_fold_wr (w :: ws) []) as L.
      pose proof (length_writes answer) as L'. rewrite W in L'.
      cbn [List.length] in L, L'. cbn [Nat.add] in L. lia.
    + right. split; [congruence|]. split.
      * apply keys_fold_wr_nil.
      * intros k. rewrite get_fold_wr.
        now destruct (last_write k (w :: ws)).
Qed.

(** The bound and the case-insensitive replacement of the specification
    fail on an answer with leading text and two titles that differ in
    case. *)
Lemma at_most_one_section_per_normalized_heading_fails :
  ~ at_most_one_section_per_normalized_heading.
Proof.
  intros H.
  destruct (H (lit "intro" ++ NL ++ lit "### A" ++ NL ++ lit "x" ++ NL
               ++ lit "### a" ++ NL ++ lit "y")) as [L _].
  vm_compute in L. lia.
Qed.

(** ** The scenario of the specification *)

(** C3, as the code has it. The scenario draft is structured into "Client
    Reply" and "Action Sheet", the latter still with its list prefixes;
    they go at rendering, where the ACTION SHEET heading is followed by the
    two numbered entries "File accounts" and "Notify HR". *)
Theorem scenario_structured_then_rendered
    (uni_upper : N -> str) (query_text full_name : str)
    (generated footer : datetime) :
  structure scenario_draft = scenario_structured
  /\ render uni_upper (structure scenario_draft) query_text full_name
            generated footer
     = front_matter uni_upper query_text full_name generated
       ++ [ styled (lit "CLIENT REPLY") true false 12;
            styled (lit "Hello.") false false 11;
            styled (lit "ACTION SHEET") true false 12;
            list_entry (lit "File accounts");
            list_entry (lit "Notify HR") ]
       ++ back_matter footer.
Proof.
  assert (E : structure scenario_draft = scenario_structured)
    by (vm_compute; reflexivity).
  split; [exact E|].
  unfold render. rewrite E. do 2 f_equal.
Qed.

(** The mapping the specification gives for the scenario is not the one
    the structuring step returns. *)
Lemma scenario_mapping_as_specified_fails : ~ scenario_mapping_as_specified.
Proof.
  unfold scenario_mapping_as_specified. vm_compute. discriminate.
Qed.

(** ** The leading section *)

Lemma last_write_absent k ws :
  ~ In k (map fst ws) -> last_write k ws = None.
Proof.
  induction ws as [|[k' v] ws IH]; simpl; [reflexivity|].
  intros H. rewrite IH by tauto.
  destruct (str_eqb k k') eqn:E; [|reflexivity].
  apply str_eqb_eq in E. subst. tauto.
Qed.

(** C4, as the code has it. Non-blank text before the first heading makes
    the first section, keyed "Enquirer Reply" and headed INITIAL RESPONSE
    in the document. Its body is the one written last under that key: when
    no heading is itself titled "Enquirer Reply", the trimmed leading text
    less one leading "Enquirer Reply" and then one leading "Hello,". *)
Theorem leading_text_is_the_first_section (answer : str) :
  strip (leading_text answer) <> [] ->
  exists body rest,
    structure answer = (lit "Enquirer Reply", body) :: rest
    /\ last_write (lit "Enquirer Reply") (writes answer) = Some body
    /\ (forall uni_upper,
          hd_error (render_section uni_upper (lit "Enquirer Reply") body)
          = Some (styled (lit "INITIAL RESPONSE") true false 12))
    /\ (~ In (lit "Enquirer Reply")
             (map fst (titled (tl (split heading_re answer)))) ->
        body = lead_body (leading_text answer)).
Proof.
  intros H. rewrite structure_writes.
  pose proof (get_fold_wr (lit "Enquirer Reply") (writes answer) []) as G.
  unfold leading_text in *. unfold writes in *. unfold split in *.
  destruct (split_pieces_cons [] (scan heading_re 0 None answer))
    as (lead & more & E).
  rewrite E in *. cbn [hd tl] in *.
  apply nonempty_true in H. rewrite H in *.
  cbn [app fold_left] in *. unfold wr at 2 in G. unfold wr at 2.
  cbn [fst snd dict_set] in *.
  destruct (fold_wr_head (lit "Enquirer Reply") (lead_body lead) []
                         (titled more)) as (v' & d' & F).
  rewrite F in *. exists v', d'.
  cbn [dict_get] in G. rewrite str_eqb_refl in G.
  set (lw := last_write (lit "Enquirer Reply")
                        ((lit "Enquirer Reply", lead_body lead) :: titled more))
    in *.
  assert (L : lw = Some v').
  { destruct lw; [congruence | discriminate]. }
  repeat split; auto.
  intros A. subst lw. cbn [last_write] in L.
  rewrite (last_write_absent _ _ A), str_eqb_refl in L. congruence.
Qed.

Lemma leading_text_is_the_first_section_witness :
  strip (leading_text (lit "Hello, all." ++ NL ++ lit "### Notes" ++ NL
                       ++ lit "n")) <> []
  /\ exists rest,
       structure (lit "Hello, all." ++ NL ++ lit "### Notes" ++ NL ++ lit "n")
       = (lit "Enquirer Reply", lit "all.") :: rest.
Proof.
  assert (H : strip (leading_text (lit "Hello, all." ++ NL ++ lit "### Notes"
                                   ++ NL ++ lit "n")) <> [])
    by (vm_compute; discriminate).
  split; [exact H|].
  destruct (leading_text_is_the_first_section _ H) as (body & rest & S & _).
  exists rest. rewrite S. f_equal.
  vm_compute in S. injection S as <- _. reflexivity.
Defined.

(** A greeting said twice leaves a body that begins with a "Hello,"
    line. *)
Lemma leading_section_never_greets_fails : ~ leading_section_never_greets.
Proof.
  intros H.
  destruct (H (lit "Hello," ++ NL ++ lit "Hello," ++ NL ++ lit "Dear X"))
    as (body & G & _ & B).
  - vm_compute. discriminate.
  - vm_compute in G. injection G as <-. apply B. vm_compute. reflexivity.
Qed.

(** ** White space, digits, bullets and list punctuation are disjoint *)

Lemma isspace_cases c :
  isspace c = true ->
  In c [9; 10; 11; 12; 13; 28; 29; 30; 31; 32; 133; 160; 5760; 8192; 8193;
        8194; 8195; 8196; 8197; 8198; 8199; 8200; 8201; 8202; 8232; 8233;
        8239; 8287; 12288]%N.
Proof.
  unfold isspace, between. intros H. to_prop. cbn [In]. lia.
Qed.

Lemma digit_not_space c : isdecimal c = true -> isspace c = false.
Proof.
  intros D. destruct (isspace c) eqn:S; [|reflexivity].
  apply isspace_cases in S. cbn [In] in S.
  repeat (destruct S as [<- | S]; [vm_compute in D; discriminate D|]).
  contradiction.
Qed.

Lemma space_not_digit c : isspace c = true -> isdecimal c = false.
Proof.
  intros S. destruct (isdecimal c) eqn:D; [|reflexivity].
  apply digit_not_space in D. congruence.
Qed.

Lemma bullet_cases c :
  bullet c = true -> c = 45%N \/ c = 8226%N \/ c = 8211%N.
Proof.
  unfold bullet, oneof. cbn [existsb]. intros H. to_prop. lia.
Qed.

Lemma punct_cases c : punct c = true -> c = 46%N \/ c = 41%N.
Proof.
  unfold punct, oneof. cbn [existsb]. intros H. to_prop. lia.
Qed.

Lemma bullet_not_space c : bullet c = true -> isspace c = false.
Proof.
  intros H. apply bullet_cases in H as [-> | [-> | ->]]; reflexivity.
Qed.

Lemma bullet_not_digit c : bullet c = true -> isdecimal c = false.
Proof.
  intros H. apply bullet_cases in H as [-> | [-> | ->]];
    vm_compute; reflexivity.
Qed.

Lemma punct_not_space c : punct c = true -> isspace c = false.
Proof. intros H. apply punct_cases in H as [-> | ->]; reflexivity. Qed.

Lemma punct_not_digit c : punct c = true -> isdecimal c = false.
Proof.
  intros H. apply punct_cases in H as [-> | ->]; vm_compute; reflexivity.
Qed.

Lemma space_not_punct c : isspace c = true -> punct c = false.
Proof.
  intros S. destruct (punct c) eqn:P; [|reflexivity].
  apply punct_not_space in P. congruence.
Qed.

Lemma digit_not_bullet c : isdecimal c = true -> bullet c = false.
Proof.
  intros D. destruct (bullet c) eqn:B; [|reflexivity].
  apply bullet_not_digit in B. congruence.
Qed.

(** ** Trimming *)

Lemma lstrip_app w s : all_of isspace w -> lstrip (w ++ s) = lstrip s.
Proof.
  intros H. rewrite <- !drop_while_isspace. now apply drop_while_app.
Qed.

Lemma lstrip_stop c s : isspace c = false -> lstrip (c :: s) = c :: s.
Proof. intros H. simpl. now rewrite H. Qed.

Lemma lstrip_fixed_head c s : lstrip (c :: s) = c :: s -> isspace c = false.
Proof.
  simpl. destruct (isspace c); [|reflexivity]. intros H.
  pose proof (suffix_length (suffix_lstrip s)) as L.
  rewrite H in L. simpl in L. lia.
Qed.

Lemma suffix_same_length u s :
  suffix u s -> List.length s <= List.length u -> u = s.
Proof.
  intros [w ->] L. rewrite length_app in L.
  destruct w; [reflexivity | simpl in L; lia].
Qed.

Lemma length_rstrip s : List.length (rstrip s) <= List.length s.
Proof.
  unfold rstrip. rewrite length_rev.
  pose proof (suffix_length (suffix_lstrip (rev s))) as L.
  now rewrite length_rev in L.
Qed.

Lemma all_of_rev p w : all_of p w -> all_of p (rev w).
Proof.
  unfold all_of. rewrite !forallb_forall. intros H x Hx.
  apply H. now apply in_rev.
Qed.

Lemma rstrip_app s w : all_of isspace w -> rstrip (s ++ w) = rstrip s.
Proof.
  intros H. unfold rstrip. rewrite rev_app_distr, lstrip_app; auto.
  now apply all_of_rev.
Qed.

(** A trimmed text is left alone by both halves of [strip]. *)
Lemma strip_fixed t : strip t = t -> lstrip t = t /\ rstrip t = t.
Proof.
  intros H.
  assert (L : lstrip t = t).
  { apply suffix_same_length; [apply suffix_lstrip|].
    rewrite <- H at 1. apply length_rstrip. }
  split; [exact L|]. unfold strip in H. now rewrite L in H.
Qed.

Lemma rstrip_keeps pre t :
  t <> [] -> rstrip t = t -> rstrip (pre ++ t) = pre ++ t.
Proof.
  intros Ht R. unfold rstrip in *.
  assert (E : lstrip (rev t) = rev t).
  { rewrite <- (rev_involutive (lstrip (rev t))), R. reflexivity. }
  rewrite rev_app_distr.
  destruct (rev t) as [|c r] eqn:Rt.
  - apply (f_equal (@rev N)) in Rt. rewrite rev_involutive in Rt.
    simpl in Rt. congruence.
  - apply lstrip_fixed_head in E. cbn [app]. rewrite lstrip_stop by exact E.
    change (c :: r ++ rev pre) with ((c :: r) ++ rev pre).
    rewrite <- Rt, <- rev_app_distr. apply rev_involutive.
Qed.

(** [strip] takes the white space off both ends of a text that ends in a
    trimmed part and begins with no white space. *)
Lemma strip_core w0 c pre t w3 :
  all_of isspace w0 -> all_of isspace w3 ->
  isspace c = false -> t <> [] -> strip t = t ->
  strip (w0 ++ (c :: pre ++ t) ++ w3) = c :: pre ++ t.
Proof.
  intros H0 H3 Hc Ht St. apply strip_fixed in St as [_ R].
  unfold strip. rewrite lstrip_app by exact H0.
  cbn [app]. rewrite lstrip_stop by exact Hc.
  change (c :: (pre ++ t) ++ w3) with ((c :: pre ++ t) ++ w3).
  rewrite rstrip_app by exact H3.
  change (c :: pre ++ t) with ((c :: pre) ++ t).
  now apply rstrip_keeps.
Qed.

Lemma strip_core_nil w0 t w3 :
  all_of isspace w0 -> all_of isspace w3 -> t <> [] -> strip t = t ->
  strip (w0 ++ t ++ w3) = t.
Proof.
  intros H0 H3 Ht St. pose proof (strip_fixed St) as [L R].
  unfold strip. rewrite lstrip_app by exact H0.
  destruct t as [|c t]; [congruence|].
  apply lstrip_fixed_head in L. cbn [app]. rewrite lstrip_stop by exact L.
  change (c :: t ++ w3) with ((c :: t) ++ w3).
  now rewrite rstrip_app.
Qed.

Lemma all_of_app p a b : all_of p a -> all_of p b -> all_of p (a ++ b).
Proof. unfold all_of. intros. rewrite forallb_app. now apply andb_true_iff. Qed.

Lemma rstrip_prefix s : exists w, s = rstrip s ++ w.
Proof.
  unfold rstrip. destruct (suffix_lstrip (rev s)) as [w E].
  exists (rev w). rewrite <- rev_app_distr, <- E. now rewrite rev_involutive.
Qed.

Lemma lstrip_head s c t : lstrip s = c :: t -> isspace c = false.
Proof.
  induction s as [|d s IH]; simpl; [discriminate|].
  destruct (isspace d) eqn:D; [exact IH|].
  intros E. injection E as <- _. exact D.
Qed.

Lemma lstrip_lstrip s : lstrip (lstrip s) = lstrip s.
Proof.
  destruct (lstrip s) as [|c t] eqn:E; [reflexivity|].
  apply lstrip_stop. exact (lstrip_head _ E).
Qed.

(** A left-trimmed end of a right-trimmed text is trimmed. *)
Lemma trimmed_suffix u s :
  rstrip s = s -> suffix u s -> lstrip u = u -> strip u = u.
Proof.
  intros R [w ->] L. unfold strip. rewrite L.
  destruct u as [|c u] using rev_ind; [reflexivity|].
  clear IHu. unfold rstrip in *.
  assert (E : rev (w ++ u ++ [c]) = c :: rev (w ++ u))
    by (rewrite app_assoc, rev_app_distr; reflexivity).
  apply (f_equal (@rev N)) in R. rewrite rev_involutive, E in R.
  rewrite rev_app_distr. cbn [rev app].
  rewrite (@lstrip_stop c (rev u) (lstrip_fixed_head R)).
  cbn [rev]. now rewrite rev_involutive.
Qed.

Lemma strip_strip s : strip (strip s) = strip s.
Proof.
  unfold strip at 2.
  destruct (rstrip_prefix (lstrip s)) as [w E].
  assert (R : rstrip (rstrip (lstrip s)) = rstrip (lstrip s)).
  { unfold rstrip. now rewrite rev_involutive, lstrip_lstrip. }
  assert (L : lstrip (rstrip (lstrip s)) = rstrip (lstrip s)).
  { destruct (rstrip (lstrip s)) as [|c t] eqn:T; [reflexivity|].
    apply lstrip_stop. rewrite E in *. cbn [app] in E.
    exact (lstrip_head s E). }
  unfold strip. now rewrite L, R.
Qed.

(** ** Manual list prefixes *)

Lemma take_while_run p w s :
  all_of p w -> stops p s -> take_while p (w ++ s) = w.
Proof.
  intros Hw Hs. rewrite take_while_app by exact Hw.
  destruct s as [|c s]; simpl in *; [|rewrite Hs]; apply app_nil_r.
Qed.

Lemma drop_while_run p w s :
  all_of p w -> stops p s -> drop_while p (w ++ s) = s.
Proof.
  intros Hw Hs. rewrite drop_while_app by exact Hw.
  destruct s as [|c s]; simpl in *; [|rewrite Hs]; reflexivity.
Qed.

Lemma star_greedy_run p k prev w s m :
  all_of p w -> stops p s ->
  k (after prev w) s = Some m ->
  star_greedy p k prev (w ++ s) = Some m.
Proof.
  intros Hw Hs Hk. apply star_greedy_max.
  now rewrite take_while_run, drop_while_run.
Qed.

Lemma stops_app p a b : a <> [] -> stops p a -> stops p (a ++ b).
Proof. destruct a; [congruence | auto]. Qed.

Lemma stops_space_run p w s :
  (forall c, isspace c = true -> p c = false) ->
  all_of isspace w -> stops p s -> stops p (w ++ s).
Proof.
  intros Hp Hw Hs. destruct w as [|c w]; [exact Hs|].
  simpl. apply Hp. unfold all_of in Hw. simpl in Hw.
  now apply andb_true_iff in Hw.
Qed.

Lemma number_tail_exec q w ds p w2 c0 t :
  all_of isspace w -> ds <> [] -> all_of isdecimal ds ->
  at_most_one punct p -> all_of isspace w2 ->
  isspace c0 = false -> isdecimal c0 = false -> punct c0 = false ->
  exec number_tail accept q (w ++ ds ++ p ++ w2 ++ c0 :: t) None
  = Some (c0 :: t, None).
Proof.
  intros Hw Hne Hds Hp Hw2 S0 D0 P0.
  destruct ds as [|d ds]; [congruence|].
  unfold all_of in Hds. cbn [forallb] in Hds.
  apply andb_true_iff in Hds as [Hd Hds].
  assert (T : star_greedy isspace (fun _ v => Some (v, None))
                          (after q w) (w2 ++ c0 :: t)
              = Some (c0 :: t, None)).
  { intros. rewrite star_greedy_accept, drop_while_run; auto. }
  assert (T' : forall r, star_greedy isspace (fun _ v => Some (v, @None str))
                           r (w2 ++ c0 :: t)
               = Some (c0 :: t, None)).
  { intros. rewrite star_greedy_accept, drop_while_run; auto. }
  unfold number_tail, plus, opt. cbn [exec].
  apply star_greedy_run; [exact Hw | unfold stops; now apply digit_not_space |].
  cbn [app]. rewrite Hd.
  apply star_greedy_run; [exact Hds | |].
  - destruct Hp as [-> | (c & -> & Hc)].
    + cbn [app]. apply stops_space_run; auto. apply space_not_digit.
    + cbn [app]. unfold stops. now apply punct_not_digit.
  - unfold accept. destruct Hp as [-> | (c & -> & Hc)].
    + cbn [app]. rewrite T'.
      destruct w2 as [|x w2]; cbn [app].
      * now rewrite P0.
      * unfold all_of in Hw2. cbn [forallb] in Hw2.
        apply andb_true_iff in Hw2 as [Hx _].
        now rewrite (space_not_punct _ Hx).
    + cbn [app]. rewrite Hc, T'. reflexivity.
Qed.

Lemma number_prefix_exec_bullet b w ds p w2 c0 t :
  bullet b = true ->
  all_of isspace w -> ds <> [] -> all_of isdecimal ds ->
  at_most_one punct p -> all_of isspace w2 ->
  isspace c0 = false -> isdecimal c0 = false -> punct c0 = false ->
  exec number_prefix_re accept None (b :: w ++ ds ++ p ++ w2 ++ c0 :: t) None
  = Some (c0 :: t, None).
Proof.
  intros Hb Hw Hne Hds Hp Hw2 S0 D0 P0.
  change number_prefix_re
    with (Seq (Bol false) (Seq (opt bullet) number_tail)).
  unfold opt. cbn [exec]. rewrite Hb.
  now rewrite number_tail_exec.
Qed.

Lemma number_prefix_exec_plain d ds p w2 c0 t :
  all_of isdecimal (d :: ds) ->
  at_most_one punct p -> all_of isspace w2 ->
  isspace c0 = false -> isdecimal c0 = false -> punct c0 = false ->
  exec number_prefix_re accept None ((d :: ds) ++ p ++ w2 ++ c0 :: t) None
  = Some (c0 :: t, None).
Proof.
  intros Hds Hp Hw2 S0 D0 P0.
  change number_prefix_re
    with (Seq (Bol false) (Seq (opt bullet) number_tail)).
  unfold opt. cbn [exec app].
  assert (Hd : isdecimal d = true).
  { unfold all_of in Hds. cbn [forallb] in Hds.
    now apply andb_true_iff in Hds. }
  rewrite (digit_not_bullet _ Hd). cbn [orelse].
  change (d :: ds ++ p ++ w2 ++ c0 :: t)
    with ([] ++ (d :: ds) ++ p ++ w2 ++ c0 :: t).
  apply number_tail_exec; auto; [reflexivity | congruence].
Qed.

Lemma bullet_prefix_none c t :
  bullet c = false -> sub bullet_prefix_re erase (c :: t) = c :: t.
Proof.
  intros H. apply (@sub_anchored_none (Seq (Chr bullet) (Star true isspace))).
  cbn [exec]. now rewrite H.
Qed.

Lemma suffix_app w u : suffix u (w ++ u).
Proof. now exists w. Qed.

Ltac assoc := repeat (cbn [app]; rewrite <- ?app_assoc); cbn [app].

Lemma entry_text_head t :
  entry_text t ->
  exists c t', t = c :: t' /\ strip t = t /\ isspace c = false
               /\ bullet c = false /\ isdecimal c = false /\ punct c = false.
Proof.
  intros [S H]. destruct t as [|c t']; [contradiction|].
  destruct H as (B & D & P). exists c, t'. repeat split; auto.
  apply strip_fixed in S as [L _]. now apply lstrip_fixed_head in L.
Qed.

Lemma sub_number_prefix s u :
  exec number_prefix_re accept None s None = Some (u, None) ->
  suffix u s -> sub number_prefix_re erase s = u.
Proof. apply sub_anchored_suffix. Qed.

Lemma sub_number_prefix_none s :
  exec number_prefix_re accept None s None = None ->
  sub number_prefix_re erase s = s.
Proof. apply sub_anchored_none. Qed.

Lemma sub_bullet_prefix s u :
  exec bullet_prefix_re accept None s None = Some (u, None) ->
  suffix u s -> sub bullet_prefix_re erase s = u.
Proof. apply sub_anchored_suffix. Qed.

(** A number prefix, with or without a bullet before it, is removed. *)
Lemma clean_entry_numbered w0 b w1 ds p w2 t w3 :
  all_of isspace w0 -> at_most_one bullet b -> all_of isspace w1 ->
  ds <> [] -> all_of isdecimal ds -> at_most_one punct p ->
  all_of isspace w2 -> entry_text t -> all_of isspace w3 ->
  clean_entry (w0 ++ b ++ w1 ++ ds ++ p ++ w2 ++ t ++ w3) = t.
Proof.
  intros H0 Hb H1 Hne Hds Hp H2 Ht H3.
  destruct (entry_text_head Ht) as (c0 & t' & -> & St & S0 & B0 & D0 & P0).
  destruct ds as [|d ds]; [congruence|].
  assert (Hd : isdecimal d = true).
  { unfold all_of in Hds. cbn [forallb] in Hds.
    now apply andb_true_iff in Hds. }
  unfold clean_entry.
  destruct Hb as [-> | (c & -> & Hc)].
  - replace (w0 ++ [] ++ w1 ++ (d :: ds) ++ p ++ w2 ++ (c0 :: t') ++ w3)
      with ((w0 ++ w1) ++ (d :: (ds ++ p ++ w2) ++ c0 :: t') ++ w3)
      by (assoc; reflexivity).
    rewrite strip_core; auto using all_of_app, digit_not_space;
      [|congruence].
    replace (d :: (ds ++ p ++ w2) ++ c0 :: t')
      with ((d :: ds) ++ p ++ w2 ++ c0 :: t') by (assoc; reflexivity).
    rewrite (@sub_number_prefix _ (c0 :: t')).
    + now apply bullet_prefix_none.
    + now apply number_prefix_exec_plain.
    + rewrite !app_assoc. apply suffix_app.
  - replace (w0 ++ [c] ++ w1 ++ (d :: ds) ++ p ++ w2 ++ (c0 :: t') ++ w3)
      with (w0 ++ (c :: (w1 ++ (d :: ds) ++ p ++ w2) ++ c0 :: t') ++ w3)
      by (assoc; reflexivity).
    rewrite strip_core; auto using bullet_not_space; [|congruence].
    replace (c :: (w1 ++ (d :: ds) ++ p ++ w2) ++ c0 :: t')
      with (c :: w1 ++ (d :: ds) ++ p ++ w2 ++ c0 :: t')
      by (assoc; reflexivity).
    rewrite (@sub_number_prefix _ (c0 :: t')).
    + now apply bullet_prefix_none.
    + now apply number_prefix_exec_bullet.
    + change (c :: w1 ++ (d :: ds) ++ p ++ w2 ++ c0 :: t')
        with ((c :: w1) ++ (d :: ds) ++ p ++ w2 ++ c0 :: t').
      rewrite !app_assoc. apply suffix_app.
Qed.

Lemma number_prefix_none_bullet b w c0 t :
  bullet b = true -> all_of isspace w ->
  isspace c0 = false -> isdecimal c0 = false ->
  exec number_prefix_re accept None (b :: w ++ c0 :: t) None = None.
Proof.
  intros Hb Hw S0 D0.
  change number_prefix_re
    with (Seq (Bol false) (Seq (opt bullet) number_tail)).
  unfold opt, number_tail. cbn [exec]. rewrite Hb.
  unfold plus. cbn [exec].
  rewrite !star_greedy_commit
    by (intros q c u Hc; cbn [app]; now rewrite (space_not_digit _ Hc)).
  rewrite drop_while_run by (auto; exact S0).
  cbn [drop_while]. rewrite (bullet_not_space _ Hb).
  rewrite D0, (bullet_not_digit _ Hb). reflexivity.
Qed.

(** A bullet with no number after it is removed. *)
Lemma clean_entry_bulleted w0 b w1 t w3 :
  all_of isspace w0 -> bullet b = true -> all_of isspace w1 ->
  entry_text t -> all_of isspace w3 ->
  clean_entry (w0 ++ [b] ++ w1 ++ t ++ w3) = t.
Proof.
  intros H0 Hb H1 Ht H3.
  destruct (entry_text_head Ht) as (c0 & t' & -> & St & S0 & B0 & D0 & P0).
  unfold clean_entry.
  replace (w0 ++ [b] ++ w1 ++ (c0 :: t') ++ w3)
    with (w0 ++ (b :: w1 ++ c0 :: t') ++ w3) by (assoc; reflexivity).
  rewrite strip_core; auto using bullet_not_space; [|congruence].
  rewrite sub_number_prefix_none by now apply number_prefix_none_bullet.
  apply sub_bullet_prefix.
  - unfold bullet_prefix_re. cbn [exec]. rewrite Hb. unfold accept.
    now rewrite star_greedy_accept, drop_while_run.
  - change (b :: w1 ++ c0 :: t') with ((b :: w1) ++ c0 :: t').
    apply suffix_app.
Qed.

(** *** What the prefix patterns remove, for every line *)

Lemma suffix_cut_punct s : suffix (cut_punct s) s.
Proof.
  destruct s as [|c t]; [apply suffix_refl|]. cbn [cut_punct].
  destruct (punct c); [apply suffix_cons|]; apply suffix_refl.
Qed.

Lemma number_rest_suffix s u : number_rest s = Some u -> suffix u s.
Proof.
  unfold number_rest. destruct (lstrip s) as [|d v] eqn:L; [discriminate|].
  destruct (isdecimal d); [|discriminate]. intros [= <-].
  eapply suffix_trans; [apply suffix_lstrip|].
  eapply suffix_trans; [apply suffix_cut_punct|].
  eapply suffix_trans; [apply suffix_drop_while|].
  eapply suffix_trans; [|apply suffix_lstrip]. rewrite L.
  apply suffix_cons, suffix_refl.
Qed.

Lemma after_digits_exec q x :
  exec (Seq (opt punct) (Star true isspace)) accept q x None
  = Some (lstrip (cut_punct x), None).
Proof.
  unfold opt. cbn [exec]. unfold accept.
  rewrite !star_greedy_accept, !drop_while_isspace.
  destruct x as [|c t]; [reflexivity|]. cbn [cut_punct].
  rewrite star_greedy_accept, drop_while_isspace.
  now destruct (punct c).
Qed.

Lemma number_tail_exact q u :
  exec number_tail accept q u None
  = match number_rest u with Some v => Some (v, None) | None => None end.
Proof.
  change number_tail
    with (Seq (Star true isspace)
              (Seq (plus isdecimal) (Seq (opt punct) (Star true isspace)))).
  unfold plus, number_rest.
  change (exec (Seq (Star true isspace)
                    (Seq (Seq (Chr isdecimal) (Star true isdecimal))
                         (Seq (opt punct) (Star true isspace))))
               accept q u None)
    with (star_greedy isspace
            (fun q1 v1 =>
               match v1 with
               | d :: v =>
                   if isdecimal d
                   then star_greedy isdecimal
                          (fun q2 v2 =>
                             exec (Seq (opt punct) (Star true isspace))
                                  accept q2 v2 None) (Some d) v
                   else None
               | [] => None
               end) q u).
  rewrite star_greedy_commit
    by (intros q0 c t Hc; now rewrite (space_not_digit _ Hc)).
  rewrite drop_while_isspace.
  destruct (lstrip u) as [|d v]; [reflexivity|].
  destruct (isdecimal d); [|reflexivity].
  erewrite star_greedy_max; [reflexivity|]. apply after_digits_exec.
Qed.

Lemma number_rest_bullet b t :
  bullet b = true -> number_rest (b :: t) = None.
Proof.
  intros H. unfold number_rest. cbn [lstrip].
  now rewrite (bullet_not_space _ H), (bullet_not_digit _ H).
Qed.

Lemma number_prefix_exact s :
  exec number_prefix_re accept None s None
  = match s with
    | c :: t =>
        match number_rest (if bullet c then t else s) with
        | Some u => Some (u, None)
        | None => None
        end
    | [] => None
    end.
Proof.
  change number_prefix_re
    with (Seq (Bol false) (Seq (opt bullet) number_tail)).
  unfold opt. cbn [exec].
  destruct s as [|c t].
  - cbn [orelse]. now rewrite number_tail_exact.
  - rewrite !number_tail_exact. destruct (bullet c) eqn:B.
    + rewrite (@number_rest_bullet c t B).
      now destruct (number_rest t).
    + reflexivity.
Qed.

Lemma sub_number_prefix_exact s :
  sub number_prefix_re erase s = cut_number s.
Proof.
  pose proof (number_prefix_exact s) as E. unfold cut_number.
  destruct s as [|c t]; [now apply sub_number_prefix_none|].
  destruct (number_rest (if bullet c then t else c :: t)) as [u|] eqn:R.
  - apply (sub_number_prefix E).
    apply number_rest_suffix in R.
    destruct (bullet c); [now apply suffix_cons | exact R].
  - now apply sub_number_prefix_none.
Qed.

Lemma sub_bullet_prefix_exact s :
  sub bullet_prefix_re erase s = cut_bullet s.
Proof.
  destruct s as [|c t].
  - apply (@sub_anchored_none (Seq (Chr bullet) (Star true isspace))).
    reflexivity.
  - cbn [cut_bullet]. destruct (bullet c) eqn:B.
    + apply sub_bullet_prefix.
      * unfold bullet_prefix_re. cbn [exec]. rewrite B. unfold accept.
        now rewrite star_greedy_accept, drop_while_isspace.
      * apply suffix_cons, suffix_lstrip.
    + now apply bullet_prefix_none.
Qed.

(** A line is trimmed, then loses one number prefix, then one bullet. *)
Lemma clean_entry_exact line :
  clean_entry line = cut_bullet (cut_number (strip line)).
Proof.
  unfold clean_entry. now rewrite sub_number_prefix_exact,
                                  sub_bullet_prefix_exact.
Qed.

(** A line that begins with neither a bullet nor a digit is only
    trimmed. *)
Lemma clean_entry_other line c t :
  strip line = c :: t -> bullet c = false -> isdecimal c = false ->
  clean_entry line = strip line.
Proof.
  intros S B D. rewrite clean_entry_exact, S.
  assert (Sp : isspace c = false).
  { apply (@lstrip_fixed_head c t).
    assert (T : strip (c :: t) = c :: t) by (rewrite <- S; apply strip_strip).
    now apply strip_fixed in T. }
  unfold cut_number, number_rest. rewrite B. cbn [lstrip].
  rewrite Sp, D. cbn [cut_bullet]. now rewrite B.
Qed.

(** ** Numbered sections *)

Lemma list_title_display title :
  display_title title = lit "Action Sheet"
  \/ display_title title = lit "Policy Notes" ->
  is_list_title title = true.
Proof.
  unfold display_title, is_list_title.
  destruct (str_eqb title (lit "Enquirer Reply")).
  - intros [H | H]; vm_compute in H; discriminate H.
  - intros [-> | ->]; reflexivity.
Qed.

Lemma list_entries_nonblank body :
  Forall (fun p => style p = ListNumber /\ paragraph_text p <> [])
         (list_entries body).
Proof.
  unfold list_entries. apply Forall_forall. intros p Hp.
  apply in_map_iff in Hp as (clean & <- & Hc).
  apply filter_In in Hc as [_ Hc]. split; [reflexivity|].
  unfold paragraph_text. simpl. rewrite app_nil_r.
  now apply nonempty_true.
Qed.

(** C7 (as the code has it). A section displayed as "Action Sheet" or
    "Policy Notes" is its heading followed by one List Number paragraph,
    indented 5 mm, for every line that is not blank once cleaned, in order,
    its one run holding the cleaned line. Cleaning trims the line, removes
    one number prefix (an optional "-", bullet or en dash, white space,
    digits, an optional "." or ")", white space) and then one bullet prefix
    ("-", bullet or en dash, white space), and nothing else: a line that
    begins with any other marker is only trimmed, and digits at the start
    of a line go even when they belong to its text. "1. Do X" and "- Do X"
    both become "Do X". *)
Theorem numbered_sections_drop_manual_prefixes
    (uni_upper : N -> str) (title body : str) :
  display_title title = lit "Action Sheet"
  \/ display_title title = lit "Policy Notes" ->
  render_section uni_upper title body
  = styled (upper uni_upper (display_title title)) true false 12
    :: map (fun clean =>
              {| style := ListNumber;
                 runs := [{| rtext := clean; bold := false; italic := false;
                             size := None |}];
                 left_indent := Some 5%N |})
           (filter nonempty (map clean_entry (splitlines body)))
  /\ (forall line, clean_entry line = cut_bullet (cut_number (strip line)))
  /\ (forall w0 b w1 ds p w2 t w3,
        all_of isspace w0 -> at_most_one bullet b -> all_of isspace w1 ->
        ds <> [] -> all_of isdecimal ds -> at_most_one punct p ->
        all_of isspace w2 -> entry_text t -> all_of isspace w3 ->
        clean_entry (w0 ++ b ++ w1 ++ ds ++ p ++ w2 ++ t ++ w3) = t)
  /\ (forall w0 b w1 t w3,
        all_of isspace w0 -> bullet b = true -> all_of isspace w1 ->
        entry_text t -> all_of isspace w3 ->
        clean_entry (w0 ++ [b] ++ w1 ++ t ++ w3) = t)
  /\ (forall line c t,
        strip line = c :: t -> bullet c = false -> isdecimal c = false ->
        clean_entry line = strip line)
  /\ clean_entry (lit "1. Do X") = lit "Do X"
  /\ clean_entry (lit "- Do X") = lit "Do X"
  /\ clean_entry (lit "2024 accounts are due") = lit "accounts are due".
Proof.
  intros H. apply list_title_display in H.
  unfold render_section. rewrite H.
  split; [reflexivity|]. split; [exact clean_entry_exact|].
  split; [apply clean_entry_numbered|].
  split; [apply clean_entry_bulleted|].
  split; [exact clean_entry_other|].
  repeat split.
Qed.

Lemma numbered_sections_drop_manual_prefixes_witness :
  display_title (lit "Policy Notes") = lit "Policy Notes"
  /\ render_section (fun c => [c]) (lit "Policy Notes")
       (lit "1. Do X" ++ NL ++ lit "  " ++ NL ++ lit "- Do X" ++ NL
        ++ 8226%N :: lit " 2) Keep records")
     = [ styled (lit "POLICY NOTES") true false 12;
         list_entry (lit "Do X");
         list_entry (lit "Do X");
         list_entry (lit "Keep records") ].
Proof.
  split; [reflexivity|].
  destruct (@numbered_sections_drop_manual_prefixes (fun c => [c])
              (lit "Policy Notes")
              (lit "1. Do X" ++ NL ++ lit "  " ++ NL ++ lit "- Do X" ++ NL
               ++ 8226%N :: lit " 2) Keep records")
              (or_intror eq_refl)) as [R _].
  rewrite R. vm_compute. reflexivity.
Defined.

(** C7 as stated fails: an asterisk, the bullet of Markdown, is not among
    the bullets the patterns know, and the entry keeps it. *)
Lemma every_manual_prefix_is_removed_fails :
  ~ every_manual_prefix_is_removed.
Proof.
  intros H. specialize (H (lit "*")).
  assert (I : In (lit "*") manual_markers) by (right; left; reflexivity).
  apply H in I. vm_compute in I. discriminate I.
Qed.

(** ** The handler *)

Lemma bind_call (A B : Type) (f : history -> A) (e : event) (k : A -> M B) h :
  bind (call f e) k h = k (f h) (h ++ [e]).
Proof. reflexivity. Qed.

Lemma bind_ret (A B : Type) (a : A) (k : A -> M B) h :
  bind (ret a) k h = k a h.
Proof. reflexivity. Qed.

Lemma bind_raise (A B : Type) (e : exn) (k : A -> M B) h :
  bind (@raise A e) k h = (Raise e, h).
Proof. reflexivity. Qed.

Lemma bind_ok (A B : Type) (c : M A) (k : A -> M B) h a h' :
  c h = (Ok a, h') -> bind c k h = k a h'.
Proof. unfold bind. now intros ->. Qed.

Lemma bind_failed (A B : Type) (c : M A) (k : A -> M B) h e h' :
  c h = (Raise e, h') -> bind c k h = (Raise e, h').
Proof. unfold bind. now intros ->. Qed.

(** Every body that [get_json] returns ends the handler in
    [AttributeError], with nothing done: a body that is not an object has
    no [get], and an object gets as far as the time stamp of api.py 335. *)
Lemma parsed_request_raises data h :
  generate_response (Json data) h = (Raise AttributeError, h).
Proof. destruct data; reflexivity. Qed.

Lemma raise_is_no_response (e : exn) (h : history) (resp : response) h' :
  (@Raise response e, h) <> (Ok resp, h').
Proof. discriminate. Qed.

(** C5 (divergence of the code). A request whose body lacks [query] is not
    answered 400: the handler raises [AttributeError], which the framework
    turns into a 500, and no response of its own is returned. Nothing has
    been done by then: the history is as it was. The raise comes from the
    time stamp, so it is the same for a body that has a [query]. *)
Theorem missing_query_is_not_rejected (data : json) (h : history) :
  has_field "query" data = false ->
  generate_response (Json data) h = (Raise AttributeError, h)
  /\ forall resp h', generate_response (Json data) h <> (Ok resp, h').
Proof.
  intros _. rewrite parsed_request_raises. split; [reflexivity|].
  intros resp h'. apply raise_is_no_response.
Qed.

Lemma missing_query_is_not_rejected_witness :
  generate_response
    (Json (JDict [(lit "user_email", JStr (lit "a@b.c"))])) []
  = (Raise AttributeError, []).
Proof.
  apply (@missing_query_is_not_rejected
           (JDict [(lit "user_email", JStr (lit "a@b.c"))]) []).
  reflexivity.
Defined.

(** C9 (divergence of the code). A request with none of [user_email],
    [supervisor_email] and [hr_email] is not answered 400 either: it ends
    in [AttributeError] like every other, before any document is made, so
    the 400 of api.py 571 is never returned. *)
Theorem no_recipient_is_not_rejected (data : json) (h : history) :
  has_field "user_email" data = false ->
  has_field "supervisor_email" data = false ->
  has_field "hr_email" data = false ->
  generate_response (Json data) h = (Raise AttributeError, h)
  /\ forall resp h', generate_response (Json data) h <> (Ok resp, h').
Proof.
  intros _ _ _. rewrite parsed_request_raises. split; [reflexivity|].
  intros resp h'. apply raise_is_no_response.
Qed.

Lemma no_recipient_is_not_rejected_witness :
  generate_response (Json (JDict [(lit "query", JStr (lit "VAT?"))])) []
  = (Raise AttributeError, []).
Proof.
  apply (@no_recipient_is_not_rejected
           (JDict [(lit "query", JStr (lit "VAT?"))]) []);
    reflexivity.
Defined.

(** C8 (divergence of the code). After the disclaimer and the copyright
    line the footer asks the module for the time and raises: no document
    gets its footer. The handler does not come that far. Whatever the
    request, it leaves the history as it was, and it either refuses a body
    that is not JSON or raises. *)
Theorem footer_is_never_added (doc : list paragraph) (h : history) :
  add_back_matter doc h = (Raise AttributeError, h)
  /\ forall req,
       snd (generate_response req h) = h
       /\ (fst (generate_response req h)
           = Ok {| status := 400;
                   body := JDict [(lit "error",
                                   JStr (lit "Invalid JSON input"))] |}
           \/ fst (generate_response req h) = Raise AttributeError).
Proof.
  split; [reflexivity|]. intros [|data].
  - split; [reflexivity | now left].
  - rewrite parsed_request_raises. split; [reflexivity | now right].
Qed.

(** ** The original-query section *)

(** *** Where backtracking can end *)

Lemma star_greedy_from p k prev u m :
  star_greedy p k prev u = Some m ->
  exists q v, suffix v u /\ k q v = Some m.
Proof.
  revert prev. induction u as [|c t IH]; intros prev; simpl.
  - intros H. exists prev, []. split; [apply suffix_refl | exact H].
  - destruct (p c).
    + destruct (star_greedy p k (Some c) t) as [m'|] eqn:E; simpl.
      * intros [= <-]. destruct (IH _ E) as (q & v & S & K).
        exists q, v. split; [now apply suffix_cons | exact K].
      * intros H. exists prev, (c :: t). split; [apply suffix_refl | exact H].
    + intros H. exists prev, (c :: t). split; [apply suffix_refl | exact H].
Qed.

Lemma star_lazy_from p k prev u m :
  star_lazy p k prev u = Some m ->
  exists q v, suffix v u /\ k q v = Some m.
Proof.
  revert prev. induction u as [|c t IH]; intros prev; simpl.
  - destruct (k prev []) eqn:E; [|discriminate].
    intros [= <-]. exists prev, []. split; [apply suffix_refl | exact E].
  - destruct (k prev (c :: t)) eqn:E.
    + intros [= <-]. exists prev, (c :: t).
      split; [apply suffix_refl | exact E].
    + destruct (p c); [|discriminate]. intros H.
      destruct (IH _ H) as (q & v & S & K).
      exists q, v. split; [now apply suffix_cons | exact K].
Qed.

Lemma star_greedy_total p k prev u :
  (forall q v, k q v <> None) -> star_greedy p k prev u <> None.
Proof.
  intros Hk. revert prev. induction u as [|c t IH]; intros prev; simpl; auto.
  destruct (p c); auto.
  destruct (star_greedy p k (Some c) t) eqn:E; simpl; [discriminate|].
  now apply IH in E.
Qed.

Lemma at_end_or_marker_ok q u g m :
  at_end_or_marker q u g = Some m -> m = (u, g) /\ ends_ok u.
Proof.
  unfold at_end_or_marker, ends_ok, text. cbn [exec].
  rewrite exec_seq_of, starts_cls_chr.
  destruct (starts_with (lit "###") u) eqn:S.
  - unfold accept, orelse. intros [= <-]. auto.
  - cbn [orelse]. destruct u; [|discriminate]. intros [= <-]. auto.
Qed.

Lemma at_end_or_marker_nil q g : at_end_or_marker q [] g = Some ([], g).
Proof. reflexivity. Qed.

Lemma lazy_any_total q u g :
  star_lazy any (fun q v => at_end_or_marker q v g) q u <> None.
Proof.
  revert q. induction u as [|c t IH]; intros q; simpl.
  - discriminate.
  - destruct (at_end_or_marker q (c :: t) g); [discriminate | apply IH].
Qed.

(** *** The line break and what follows *)

Lemma crlf_space c : oneof [13; 10]%N c = true -> isspace c = true.
Proof.
  unfold oneof. cbn [existsb]. intros H. to_prop.
  destruct H as [-> | [-> | H]]; [reflexivity | reflexivity | discriminate].
Qed.

Lemma oq_break_exec q u :
  exec oq_break accept q u None
  = match u with
    | c :: t =>
        if oneof [13; 10]%N c
        then star_greedy (oneof [13; 10]%N)
               (fun q1 v1 =>
                  star_lazy any (fun q2 v2 => at_end_or_marker q2 v2 None)
                            q1 v1)
               (Some c) t
        else None
    | [] => None
    end.
Proof. destruct u; reflexivity. Qed.

Lemma oq_break_some q u m :
  exec oq_break accept q u None = Some m ->
  exists c t, u = c :: t /\ oneof [13; 10]%N c = true
              /\ suffix (fst m) t /\ ends_ok (fst m).
Proof.
  rewrite oq_break_exec. destruct u as [|c t]; [discriminate|].
  destruct (oneof [13; 10]%N c) eqn:C; [|discriminate].
  intros H. exists c, t. split; [reflexivity|]. split; [exact C|].
  apply star_greedy_from in H as (q1 & v1 & S1 & H).
  apply star_lazy_from in H as (q2 & v2 & S2 & H).
  apply at_end_or_marker_ok in H as [-> E]. cbn [fst].
  split; [eapply suffix_trans; eassumption | exact E].
Qed.

Lemma oq_break_total q c t :
  oneof [13; 10]%N c = true -> exec oq_break accept q (c :: t) None <> None.
Proof.
  intros C. rewrite oq_break_exec, C.
  apply star_greedy_total. intros q1 v1. apply lazy_any_total.
Qed.

Lemma oq_tail_exec q u :
  exec oq_tail accept q u None
  = star_greedy isspace (fun q1 v1 => exec oq_break accept q1 v1 None) q u.
Proof. reflexivity. Qed.

Lemma oq_tail_break q u m :
  exec oq_tail accept q u None = Some m -> has_break u = true.
Proof.
  rewrite oq_tail_exec. revert q m.
  induction u as [|c t IH]; intros q m; cbn [star_greedy has_break].
  - intros H. apply oq_break_some in H as (c & t & E & _). discriminate E.
  - destruct (oneof [13; 10]%N c) eqn:C; [reflexivity|].
    destruct (isspace c).
    + destruct (star_greedy isspace _ (Some c) t) eqn:E; cbn [orelse].
      * intros _. now apply IH in E.
      * intros H. apply oq_break_some in H as (c' & t' & [= <- <-] & C' & _).
        congruence.
    + intros H. apply oq_break_some in H as (c' & t' & [= <- <-] & C' & _).
      congruence.
Qed.

Lemma oq_tail_some q u m :
  exec oq_tail accept q u None = Some m ->
  suffix (fst m) u /\ List.length (fst m) < List.length u /\ ends_ok (fst m).
Proof.
  rewrite oq_tail_exec. intros H.
  apply star_greedy_from in H as (q1 & v1 & S1 & H).
  apply oq_break_some in H as (c & t & -> & _ & S & E).
  split; [|split; [|exact E]].
  - eapply suffix_trans; [|exact S1]. now apply suffix_cons.
  - apply suffix_length in S. apply suffix_length in S1. simpl in S1. lia.
Qed.

Lemma oq_tail_total q u :
  has_break u = true -> exec oq_tail accept q u None <> None.
Proof.
  rewrite oq_tail_exec. revert q.
  induction u as [|c t IH]; intros q; cbn [star_greedy has_break];
    [discriminate|].
  destruct (oneof [13; 10]%N c) eqn:C.
  - intros _. rewrite (crlf_space _ C).
    destruct (star_greedy isspace _ (Some c) t); cbn [orelse];
      [discriminate | now apply oq_break_total].
  - destruct (isspace c); [|discriminate]. intros H.
    destruct (star_greedy isspace _ (Some c) t) eqn:E; cbn [orelse];
      [discriminate|]. now apply IH in E.
Qed.

(** *** Where the deleted stretch ends *)

Lemma star_greedy_split p k prev u m :
  star_greedy p k prev u = Some m ->
  exists w v, u = w ++ v /\ all_of p w /\ k (after prev w) v = Some m.
Proof.
  revert prev. induction u as [|c t IH]; intros prev; cbn [star_greedy].
  - intros H. now exists [], [].
  - destruct (p c) eqn:Pc.
    + destruct (star_greedy p k (Some c) t) as [m'|] eqn:E; cbn [orelse].
      * intros [= <-]. destruct (IH _ E) as (w & v & -> & A & K).
        exists (c :: w), v. repeat split; [|exact K].
        unfold all_of in *. cbn [forallb]. now rewrite Pc.
      * intros H. now exists [], (c :: t).
    + intros H. now exists [], (c :: t).
Qed.

Lemma at_end_or_marker_spec q u g :
  at_end_or_marker q u g
  = if starts_with (lit "###") u then Some (u, g)
    else match u with [] => Some ([], g) | _ :: _ => None end.
Proof.
  unfold at_end_or_marker, text. cbn [exec].
  rewrite exec_seq_of, starts_cls_chr.
  destruct (starts_with (lit "###") u) eqn:S; [reflexivity|].
  cbn [orelse]. destruct u; reflexivity.
Qed.

(** The lazy [[\s\S]*?] stops at the first ["###"], or at the end. *)
Lemma lazy_any_exact q u g m :
  star_lazy any (fun q v => at_end_or_marker q v g) q u = Some m ->
  fst m = from_marker u.
Proof.
  revert q. induction u as [|c t IH]; intros q;
    cbn [star_lazy from_marker]; rewrite at_end_or_marker_spec.
  - destruct (starts_with (lit "###") []); now intros [= <-].
  - destruct (starts_with (lit "###") (c :: t)); [now intros [= <-]|].
    cbn [any]. apply IH.
Qed.

Lemma space_not_hash c : isspace c = true -> (35 =? c)%N = false.
Proof.
  intros H. destruct (N.eqb_spec 35 c) as [<- | _]; [|reflexivity].
  vm_compute in H. discriminate H.
Qed.

Lemma from_marker_space w v :
  all_of isspace w -> from_marker (w ++ v) = from_marker v.
Proof.
  unfold all_of. induction w as [|c w IH]; [reflexivity|].
  cbn [forallb]. intros H. apply andb_true_iff in H as [C H].
  cbn [app from_marker].
  change (lit "###") with [35; 35; 35]%N. cbn [starts_with].
  rewrite (space_not_hash _ C). cbn [andb]. now apply IH.
Qed.

Lemma from_marker_ends_ok s : ends_ok (from_marker s).
Proof.
  induction s as [|c t IH]; cbn [from_marker].
  - destruct (starts_with (lit "###") []); now left.
  - destruct (starts_with (lit "###") (c :: t)) eqn:S; [now right | exact IH].
Qed.

Lemma all_of_crlf_space w : all_of (oneof [13; 10]%N) w -> all_of isspace w.
Proof.
  unfold all_of. rewrite !forallb_forall. intros H x Hx.
  apply crlf_space. now apply H.
Qed.

Lemma oq_break_exact q u m :
  exec oq_break accept q u None = Some m -> fst m = from_marker u.
Proof.
  rewrite oq_break_exec. destruct u as [|c t]; [discriminate|].
  destruct (oneof [13; 10]%N c) eqn:C; [|discriminate].
  intros H. apply star_greedy_split in H as (w & v & -> & A & H).
  apply lazy_any_exact in H. rewrite H.
  symmetry. apply (@from_marker_space (c :: w) v).
  unfold all_of. cbn [forallb]. rewrite (crlf_space _ C).
  exact (all_of_crlf_space A).
Qed.

Lemma oq_tail_exact q u m :
  exec oq_tail accept q u None = Some m -> fst m = from_marker u.
Proof.
  rewrite oq_tail_exec. intros H.
  apply star_greedy_split in H as (w & v & -> & A & H).
  apply oq_break_exact in H. rewrite H. symmetry.
  now apply from_marker_space.
Qed.

(** *** A match of [original_query_re] and the heading it starts at *)

Lemma original_query_exec prev s :
  exec original_query_re accept prev s None
  = if starts_with_i oq_marker s
    then exec oq_tail accept
              (after prev (firstn (List.length oq_marker) s))
              (skipn (List.length oq_marker) s) None
    else None.
Proof.
  change original_query_re with (Seq (text_i "### ORIGINAL QUERY") oq_tail).
  unfold text_i. cbn [exec].
  now rewrite exec_seq_of, starts_cls_chr_i.
Qed.

Lemma original_query_some prev s u g :
  exec original_query_re accept prev s None = Some (u, g) ->
  oq_head s = true /\ suffix u s /\ List.length u < List.length s
  /\ ends_ok u.
Proof.
  rewrite original_query_exec. unfold oq_head.
  destruct (starts_with_i oq_marker s); [|discriminate].
  intros H. pose proof (oq_tail_break _ _ H) as B.
  apply oq_tail_some in H as (S & L & E). cbn [fst] in *.
  rewrite B. split; [reflexivity|]. split; [|split; [|exact E]].
  - eapply suffix_trans; [exact S | apply suffix_skipn].
  - pose proof (suffix_length (suffix_skipn (List.length oq_marker) s)). lia.
Qed.

(** A match ends at the first ["###"] after the marker, or at the end. *)
Lemma original_query_exact prev s u g :
  exec original_query_re accept prev s None = Some (u, g) ->
  u = after_section s.
Proof.
  rewrite original_query_exec.
  destruct (starts_with_i oq_marker s); [|discriminate].
  intros H. now apply oq_tail_exact in H.
Qed.

Lemma original_query_total prev s :
  oq_head s = true -> exec original_query_re accept prev s None <> None.
Proof.
  unfold oq_head. intros H. apply andb_true_iff in H as [M B].
  rewrite original_query_exec, M. now apply oq_tail_total.
Qed.

(** *** Headings and appended text *)

Lemma starts_with_i_length p s :
  starts_with_i p s = true -> List.length p <= List.length s.
Proof.
  revert s. induction p as [|a p IH]; intros [|b s]; simpl;
    try discriminate; try lia.
  intros H. apply andb_true_iff in H as [_ H]. apply IH in H. lia.
Qed.

Lemma starts_with_i_app p s v :
  starts_with_i p s = true -> starts_with_i p (s ++ v) = true.
Proof.
  revert s. induction p as [|a p IH]; intros [|b s]; simpl;
    try discriminate; auto.
  intros H. apply andb_true_iff in H as [A H]. now rewrite A, IH.
Qed.

Lemma starts_with_i_cut p x u :
  List.length p <= List.length x ->
  starts_with_i p (x ++ u) = starts_with_i p x.
Proof.
  revert x. induction p as [|a p IH]; intros [|b x]; simpl; auto;
    try lia.
  intros L. rewrite IH by lia. reflexivity.
Qed.

Lemma starts_with_i_junction p x u :
  starts_with_i p (x ++ u) = true -> List.length x < List.length p ->
  starts_with_i (skipn (List.length x) p) u = true.
Proof.
  revert x. induction p as [|a p IH]; intros [|b x]; simpl; auto;
    try lia.
  intros H L. apply andb_true_iff in H as [_ H]. apply IH; [exact H | lia].
Qed.

Lemma has_break_app w v : has_break w = true -> has_break (w ++ v) = true.
Proof.
  induction w as [|c w IH]; cbn [app has_break]; [discriminate|].
  destruct (oneof [13; 10]%N c); [reflexivity|].
  destruct (isspace c); [exact IH | discriminate].
Qed.

Lemma has_break_cut w c u :
  isspace c = false -> has_break (w ++ c :: u) = true -> has_break w = true.
Proof.
  intros Hc. induction w as [|d w IH]; cbn [app has_break].
  - destruct (oneof [13; 10]%N c) eqn:C.
    + apply crlf_space in C. congruence.
    + now rewrite Hc.
  - destruct (oneof [13; 10]%N d); [reflexivity|].
    destruct (isspace d); [exact IH | discriminate].
Qed.

Lemma oq_head_app x v : oq_head x = true -> oq_head (x ++ v) = true.
Proof.
  unfold oq_head. intros H. apply andb_true_iff in H as [M B].
  rewrite (starts_with_i_app _ _ v M).
  rewrite skipn_app.
  pose proof (starts_with_i_length _ _ M) as L.
  replace (List.length oq_marker - List.length x) with 0 by lia.
  rewrite skipn_O. now rewrite has_break_app.
Qed.

Lemma marker_after_junction n u :
  1 <= n < List.length oq_marker ->
  starts_with_i (skipn n oq_marker) (35 :: 35 :: 35 :: u)%N = false.
Proof.
  intros [L U].
  do 18 (destruct n as [|n]; [try lia; vm_compute; reflexivity|]).
  vm_compute in U. lia.
Qed.

(** A heading that runs across the start of a ["###"] starts there. *)
Lemma oq_head_junction x u :
  starts_with (lit "###") u = true -> oq_head (x ++ u) = true ->
  oq_head x = true \/ x = [].
Proof.
  intros U H.
  assert (exists u', u = (35 :: 35 :: 35 :: u')%N) as [u' ->].
  { change (lit "###") with [35; 35; 35]%N in U.
    destruct u as [|a [|b [|c u']]]; cbn [starts_with] in U;
      try discriminate U;
      try (rewrite ?andb_false_r in U; discriminate U).
    apply andb_true_iff in U as [A U].
    apply andb_true_iff in U as [B U].
    apply andb_true_iff in U as [C _].
    apply N.eqb_eq in A, B, C. subst. now exists u'. }
  destruct x as [|x0 x]; [now right|]. left.
  unfold oq_head in *. apply andb_true_iff in H as [M B].
  destruct (Nat.lt_ge_cases (List.length (x0 :: x)) (List.length oq_marker))
    as [L | L].
  - apply starts_with_i_junction in M; [|exact L].
    rewrite marker_after_junction in M; [discriminate|].
    cbn [List.length] in *. lia.
  - rewrite starts_with_i_cut in M by exact L. rewrite M. cbn [andb].
    rewrite skipn_app in B.
    replace (List.length oq_marker - List.length (x0 :: x)) with 0 in B
      by lia.
    rewrite skipn_O in B. eapply has_break_cut; [|exact B]. reflexivity.
Qed.

(** *** The scan that deletes the original-query sections *)

Lemma scan_skip r n prev s :
  exists prev', scan r n prev s = scan r 0 prev' (skipn n s).
Proof.
  revert n prev. induction s as [|c t IH]; intros n prev.
  - exists prev. now destruct n.
  - destruct n as [|n]; [now exists prev|].
    cbn [scan skipn]. apply IH.
Qed.

Lemma cleaned_scan_upto n :
  forall prev s, List.length s <= n ->
    cleaned s (kept (scan original_query_re 0 prev s)).
Proof.
  induction n as [|n IH]; intros prev [|c t] L;
    try (cbn [List.length] in L; lia); try apply cleaned_nil.
  cbn [scan]. unfold match_at.
  destruct (exec original_query_re accept prev (c :: t) None)
    as [[u g]|] eqn:E.
  - pose proof (original_query_some _ _ E) as (H & S & Lu & Eo).
    pose proof (skipn_suffix S) as K.
    destruct (List.length (c :: t) - List.length u) as [|k] eqn:D; [lia|].
    cbn [skipn] in K.
    destruct (scan_skip original_query_re k (Some c) t) as [p' ->].
    rewrite K. unfold kept at 1. cbn [flat_map erase app].
    apply cleaned_drop; [exact H|].
    rewrite <- (original_query_exact _ _ E).
    apply IH. cbn [List.length] in *. lia.
  - unfold kept. cbn [flat_map app]. apply cleaned_keep.
    + destruct (oq_head (c :: t)) eqn:H; [|reflexivity].
      now apply (original_query_total prev) in H.
    + apply IH. cbn [List.length] in L. lia.
Qed.

Lemma cleaned_sub s : cleaned s (sub original_query_re erase s).
Proof. exact (cleaned_scan_upto None s (le_n _)). Qed.

(** A heading that starts in the cleaned text started in the text. *)
Lemma cleaned_back t o :
  cleaned t o ->
  forall x, oq_head (x ++ o) = true -> oq_head (x ++ t) = true.
Proof.
  induction 1 as [|c t o F C IH|s o H C IH]; intros x Hx.
  - exact Hx.
  - replace (x ++ c :: t) with ((x ++ [c]) ++ t)
      by now rewrite <- app_assoc.
    apply IH. now rewrite <- app_assoc.
  - apply IH in Hx.
    destruct (from_marker_ends_ok (skipn (List.length oq_marker) s))
      as [E | E]; fold (after_section s) in E.
    + rewrite E, app_nil_r in Hx. now apply oq_head_app.
    + destruct (@oq_head_junction x (after_section s) E Hx) as [Hh | ->].
      * now apply oq_head_app.
      * exact H.
Qed.

Lemma cleaned_no_head s o : cleaned s o -> no_oq_head o.
Proof.
  induction 1 as [|c t o F C IH|s o H C IH]; intros pre post P.
  - symmetry in P. apply app_eq_nil in P as [_ ->]. reflexivity.
  - destruct pre as [|d pre]; cbn [app] in P.
    + subst post. destruct (oq_head (c :: o)) eqn:Hh; [|reflexivity].
      pose proof (cleaned_back C [c] Hh) as B. cbn [app] in B. congruence.
    + injection P as _ P. exact (IH _ _ P).
  - exact (IH _ _ P).
Qed.

Lemma no_oq_head_strip o : no_oq_head o -> no_oq_head (strip o).
Proof.
  intros H pre post P. unfold strip in P.
  destruct (suffix_lstrip o) as [w Ew].
  destruct (rstrip_prefix (lstrip o)) as [w' Ew'].
  rewrite P in Ew'. rewrite Ew' in Ew.
  destruct (oq_head post) eqn:Hp; [|reflexivity].
  rewrite <- (H (w ++ pre) (post ++ w')).
  - symmetry. now apply oq_head_app.
  - rewrite Ew. now rewrite <- !app_assoc.
Qed.

(** The sections to delete are fixed by the text: [cleaned] relates a
    text to one result only. *)
Lemma cleaned_functional s o o' : cleaned s o -> cleaned s o' -> o = o'.
Proof.
  intros C. revert o'.
  induction C as [|c t o F C IH|s o H C IH]; intros o' C';
    inversion C'; subst; try congruence.
  - discriminate.
  - f_equal. now apply IH.
  - discriminate.
  - now apply IH.
Qed.

(** C10 (as the code has it). [remove_original_query] deletes, from left
    to right, every stretch that begins with ["### ORIGINAL QUERY"] in any
    letter case followed by white space with a line break in it, and that
    runs up to the first ["###"] after that heading or, where there is
    none, to the end of the text. Every other character is kept, in order,
    and the result is trimmed. What it returns has no such heading left at
    any position. *)
Theorem original_query_headings_removed (answer : str) :
  cleaned answer (sub original_query_re erase answer)
  /\ (forall o, cleaned answer o -> o = sub original_query_re erase answer)
  /\ remove_original_query answer = strip (sub original_query_re erase answer)
  /\ no_oq_head (remove_original_query answer)
  /\ remove_original_query
       (lit "Intro" ++ NL ++ lit "### original query " ++ NL ++ lit "What is VAT?"
        ++ NL ++ lit "### Enquirer Reply" ++ NL ++ lit "VAT is a tax.")
     = lit "Intro" ++ NL ++ lit "### Enquirer Reply" ++ NL ++ lit "VAT is a tax.".
Proof.
  split; [apply cleaned_sub|]. split; [|split; [reflexivity|split]].
  - intros o C. exact (cleaned_functional C (cleaned_sub answer)).
  - unfold remove_original_query. apply no_oq_head_strip.
    exact (cleaned_no_head (cleaned_sub answer)).
  - vm_compute. reflexivity.
Qed.

(** C10 as stated fails: a heading written with two spaces after the
    ["###"] is not matched by the deletion, and the structuring step makes
    a section titled ["ORIGINAL QUERY"] of it. *)
Lemma original_query_never_structured_fails :
  ~ original_query_never_structured.
Proof.
  intros H.
  specialize (H (lit "###  ORIGINAL QUERY" ++ NL ++ lit "foo")).
  vm_compute in H. discriminate H.
Qed.

(** ** Further properties of the structuring step *)

Lemma cut_leading_trimmed m s :
  strip s = s -> strip (cut_leading m s) = cut_leading m s.
Proof.
  intros T. destruct (strip_fixed T) as [L R].
  unfold cut_leading. rewrite L.
  destruct (starts_with_i m s); [|exact T].
  apply trimmed_suffix with (s := s); [exact R | | apply lstrip_lstrip].
  eapply suffix_trans; [apply suffix_lstrip | apply suffix_skipn].
Qed.

Lemma lead_body_trimmed lead : strip (lead_body lead) = lead_body lead.
Proof.
  unfold lead_body. do 2 apply cut_leading_trimmed. apply strip_strip.
Qed.

Lemma section_body_trimmed t b :
  strip (section_body t (strip b)) = section_body t (strip b).
Proof. unfold section_body. destruct (is_reply_title t); apply strip_strip. Qed.

Lemma titled_wellformed more k v :
  In (k, v) (titled more) -> k <> [] /\ strip k = k /\ strip v = v.
Proof.
  induction more as [| t | t b more IH] using pair_ind; cbn [titled];
    try contradiction.
  rewrite in_app_iff. intros [H | H]; [|exact (IH H)].
  destruct (nonempty (strip t)) eqn:E; [|contradiction].
  destruct H as [H | []]. injection H as <- <-.
  apply nonempty_true in E.
  split; [exact E|]. split; [apply strip_strip | apply section_body_trimmed].
Qed.

Lemma writes_wellformed answer k v :
  In (k, v) (writes answer) -> k <> [] /\ strip k = k /\ strip v = v.
Proof.
  unfold writes. destruct (split heading_re answer) as [|lead more];
    [contradiction|].
  rewrite in_app_iff. intros [H | H]; [|exact (titled_wellformed _ _ _ H)].
  destruct (nonempty (strip lead)); [|contradiction].
  destruct H as [H | []]. injection H as <- <-.
  split; [discriminate|]. split; [reflexivity | apply lead_body_trimmed].
Qed.

Lemma in_dict_set k v k' v' d :
  In (k, v) (dict_set k' v' d) -> In (k, v) d \/ v = v'.
Proof.
  induction d as [|[a b] d IH]; cbn [dict_set].
  - intros [H | []]. injection H as _ <-. now right.
  - destruct (str_eqb k' a).
    + intros [H | H]; [injection H as _ <-; now right | left; now right].
    + intros [H | H]; [left; now left|].
      destruct (IH H) as [I | I]; [left; now right | now right].
Qed.

Lemma in_fold_wr ws :
  forall d k v, In (k, v) (fold_left wr ws d) ->
    In (k, v) d \/ exists k', In (k', v) ws.
Proof.
  induction ws as [|[a b] ws IH]; intros d k v; cbn [fold_left];
    [now left|].
  intros H. destruct (IH _ _ _ H) as [I | [k' I]].
  - unfold wr in I. cbn [fst snd] in I.
    destruct (in_dict_set _ _ _ _ _ I) as [J | ->]; [now left|].
    right. exists a. now left.
  - right. exists k'. now right.
Qed.

Lemma NoDup_filter (A : Type) (f : A -> bool) l :
  NoDup l -> NoDup (filter f l).
Proof.
  induction 1 as [|a l N D IH]; simpl; [constructor|].
  destruct (f a); [|exact IH].
  constructor; [|exact IH]. rewrite filter_In. tauto.
Qed.

Lemma NoDup_first_seen ks : NoDup (first_seen ks).
Proof.
  induction ks as [|k ks IH]; cbn [first_seen]; constructor.
  - rewrite filter_In. intros [_ H]. now rewrite str_eqb_refl in H.
  - now apply NoDup_filter.
Qed.

Lemma in_keys_fold_wr ws k :
  In k (keys (fold_left wr ws [])) -> In k (map fst ws).
Proof.
  rewrite keys_fold_wr_nil. revert k.
  induction ws as [|[a b] ws IH]; intros k; cbn [map fst first_seen];
    [contradiction|].
  intros [H | H]; [now left|]. right.
  apply filter_In in H as [H _]. now apply IH.
Qed.

(** X1. The structured answer is never empty; its titles are pairwise distinct,
    not empty and trimmed, and so is every body trimmed. *)
Theorem structure_sections_wellformed (answer : str) :
  structure answer <> []
  /\ NoDup (keys (structure answer))
  /\ forall k v, In (k, v) (structure answer) ->
       k <> [] /\ strip k = k /\ strip v = v.
Proof.
  rewrite structure_writes.
  destruct (fold_left wr (writes answer) []) as [|e d] eqn:F.
  - split; [discriminate|]. split.
    + repeat constructor. intros [].
    + intros k v [H | []]. injection H as <- <-.
      split; [discriminate|]. split; [reflexivity | apply strip_strip].
  - rewrite <- F. split; [rewrite F; discriminate|]. split.
    + rewrite keys_fold_wr_nil. apply NoDup_first_seen.
    + intros k v H.
      assert (K : In k (map fst (writes answer))).
      { apply in_keys_fold_wr. unfold keys.
        change k with (fst (k, v)). now apply in_map. }
      apply in_map_iff in K as ([k0 v0] & <- & K0).
      destruct (in_fold_wr _ _ _ _ H) as [[] | [k' I]].
      destruct (writes_wellformed _ _ _ K0) as (A & B & _).
      destruct (writes_wellformed _ _ _ I) as (_ & _ & C).
      cbn [fst]. auto.
Qed.

(** ** Further properties of the original-query clean-up *)

Lemma scan_original_query_clean prev s :
  no_oq_head s -> scan original_query_re 0 prev s = map Keep s.
Proof.
  revert prev. induction s as [|c t IH]; intros prev H; [reflexivity|].
  cbn [scan map]. unfold match_at.
  destruct (exec original_query_re accept prev (c :: t) None)
    as [[u g]|] eqn:E.
  - apply original_query_some in E as (O & _).
    now rewrite (H [] (c :: t) eq_refl) in O.
  - f_equal. apply IH. intros pre post P.
    apply (H (c :: pre) post). now rewrite P.
Qed.

Lemma sub_original_query_clean s :
  no_oq_head s -> sub original_query_re erase s = s.
Proof.
  intros H. unfold sub. rewrite (scan_original_query_clean None H).
  apply flat_map_keep.
Qed.

(** X2. The clean-up changes nothing when it is run a second time. *)
Theorem remove_original_query_idempotent (answer : str) :
  remove_original_query (remove_original_query answer)
  = remove_original_query answer.
Proof.
  assert (H : no_oq_head (remove_original_query answer)).
  { unfold remove_original_query. apply no_oq_head_strip.
    exact (cleaned_no_head (cleaned_sub answer)). }
  unfold remove_original_query at 1.
  rewrite (sub_original_query_clean H).
  unfold remove_original_query. apply strip_strip.
Qed.

(** X3. An answer in which no original-query heading starts is only trimmed:
    the clean-up deletes nothing else. *)
Theorem answer_without_original_query_is_trimmed (answer : str) :
  no_oq_head answer -> remove_original_query answer = strip answer.
Proof.
  intros H. unfold remove_original_query.
  now rewrite sub_original_query_clean.
Qed.

Lemma answer_without_original_query_is_trimmed_witness :
  remove_original_query (lit " ## a ") = lit "## a".
Proof.
  rewrite (@answer_without_original_query_is_trimmed (lit " ## a ")).
  - vm_compute. reflexivity.
  - intros pre post P.
    repeat (destruct pre as [|? pre];
            [cbn [app] in P; subst post; vm_compute; reflexivity
            | try discriminate P; injection P as _ P]).
Defined.

(** ** The review pass: what the review call is given *)

Lemma infix_refl s : infix s s.
Proof. exists [], []. now rewrite app_nil_r. Qed.

Lemma infix_trans u v s : infix u v -> infix v s -> infix u s.
Proof.
  intros (a & b & ->) (c & d & ->). exists (c ++ a), (b ++ d).
  now rewrite <- !app_assoc.
Qed.

Lemma infix_suffix u s : suffix u s -> infix u s.
Proof. intros [w ->]. exists w, []. now rewrite app_nil_r. Qed.

Lemma infix_prefix u w : infix u (u ++ w).
Proof. now exists [], w. Qed.

Lemma infix_strip s : infix (strip s) s.
Proof.
  unfold strip. apply infix_trans with (v := lstrip s).
  - destruct (rstrip_prefix (lstrip s)) as [w E].
    rewrite E at 2. apply infix_prefix.
  - apply infix_suffix, suffix_lstrip.
Qed.

Lemma infix_firstn n s : infix (firstn n s) s.
Proof. rewrite <- (firstn_skipn n s) at 2. apply infix_prefix. Qed.

Lemma infix_length u s : infix u s -> List.length u <= List.length s.
Proof. intros (a & b & ->). rewrite !length_app. lia. Qed.

Lemma before_prefix P s : exists w, s = before P s ++ w.
Proof.
  induction s as [|c t [w IH]]; cbn [before].
  - exists []. now destruct (P []).
  - destruct (P (c :: t)); [now exists (c :: t)|].
    exists w. cbn [app]. now rewrite <- IH.
Qed.

Lemma infix_before P s : infix (before P s) s.
Proof.
  destruct (before_prefix P s) as [w E]. rewrite E at 2. apply infix_prefix.
Qed.

Section Occurrences.

Variable P : str -> bool.
Hypothesis P_app : forall x v, P x = true -> P (x ++ v) = true.
Hypothesis P_nil : P [] = false.

Lemma occurs_infix u s : infix u s -> occurs P u -> occurs P s.
Proof.
  intros (a & b & ->) (pre & post & -> & H).
  exists (a ++ pre), (post ++ b). split.
  - now rewrite <- !app_assoc.
  - now apply P_app.
Qed.

Lemma before_clean s : ~ occurs P (before P s).
Proof.
  induction s as [|c t IH]; cbn [before].
  - rewrite P_nil.
    intros (pre & post & E & H). symmetry in E.
    apply app_eq_nil in E as [_ ->]. congruence.
  - destruct (P (c :: t)) eqn:F.
    + intros (pre & post & E & H). symmetry in E.
      apply app_eq_nil in E as [_ ->]. congruence.
    + intros (pre & post & E & H). destruct pre as [|d pre].
      * cbn [app] in E. subst post.
        destruct (before_prefix P t) as [w Ew].
        apply (@P_app _ w) in H. cbn [app] in H. rewrite <- Ew in H.
        congruence.
      * injection E as _ E. apply IH. now exists pre, post.
Qed.

End Occurrences.

Lemma starts_with_app p s v :
  starts_with p s = true -> starts_with p (s ++ v) = true.
Proof.
  revert s. induction p as [|a p IH]; intros [|b s]; simpl;
    try discriminate; auto.
  intros H. apply andb_true_iff in H as [A H]. now rewrite A, IH.
Qed.

Lemma starts_signoff_app s v :
  starts_signoff s = true -> starts_signoff (s ++ v) = true.
Proof.
  unfold starts_signoff. rewrite !existsb_exists.
  intros (p & I & H). exists p. split; [exact I|].
  now apply starts_with_i_app.
Qed.

Lemma before_first_before sep s :
  before_first sep s = before (starts_with sep) s.
Proof.
  induction s as [|c t IH]; cbn [before_first before].
  - now destruct (starts_with sep []).
  - destruct (starts_with sep (c :: t)); [reflexivity | now rewrite IH].
Qed.

(** *** A match of [signoff_re] *)

Lemma any_to_the_end k prev u (g : option str) :
  (forall q, k q [] = Some ([], g)) ->
  star_greedy any k prev u = Some ([], g).
Proof.
  intros K. revert prev.
  induction u as [|c t IH]; intros prev; cbn [star_greedy].
  - apply K.
  - cbn [any]. now rewrite IH.
Qed.

Lemma signoff_exec prev s :
  exec signoff_re accept prev s None
  = if starts_signoff s
    then match exec signoff_re accept prev s None with
         | Some (_, g) => Some ([], g)
         | None => None
         end
    else None.
Proof.
  unfold signoff_re, text_i. cbn [exec].
  rewrite !exec_seq_of, !starts_cls_chr_i.
  unfold starts_signoff, signoffs. cbn [existsb].
  erewrite !any_to_the_end by (intros; reflexivity).
  destruct (starts_with_i (lit "Best regards,") s); [reflexivity|].
  destruct (starts_with_i (lit "Yours sincerely,") s); [reflexivity|].
  destruct (starts_with_i (lit "Kind regards,") s); reflexivity.
Qed.

Lemma signoff_total prev s :
  starts_signoff s = true -> exec signoff_re accept prev s None <> None.
Proof.
  unfold signoff_re, text_i. cbn [exec].
  rewrite !exec_seq_of, !starts_cls_chr_i.
  unfold starts_signoff, signoffs. cbn [existsb].
  erewrite !any_to_the_end by (intros; reflexivity).
  destruct (starts_with_i (lit "Best regards,") s); [discriminate|].
  destruct (starts_with_i (lit "Yours sincerely,") s); [discriminate|].
  destruct (starts_with_i (lit "Kind regards,") s); [discriminate|].
  discriminate.
Qed.

Lemma scan_past_end r prev s : scan r (List.length s) prev s = [].
Proof.
  revert prev. induction s as [|c t IH]; intros prev; [reflexivity|].
  cbn [List.length scan]. apply IH.
Qed.

(** The sign-off removal keeps the text before the first sign-off. *)
Lemma sub_signoff s : sub signoff_re erase s = before starts_signoff s.
Proof.
  unfold sub. generalize (@None N) as prev.
  induction s as [|c t IH]; intros prev.
  - cbn [scan flat_map before]. now destruct (starts_signoff []).
  - cbn [scan before]. unfold match_at.
    pose proof (signoff_exec prev (c :: t)) as E.
    pose proof (@signoff_total prev (c :: t)) as T.
    destruct (starts_signoff (c :: t)).
    + destruct (exec signoff_re accept prev (c :: t) None) as [[u g]|];
        [|now elim T].
      injection E as ->. cbn [List.length]. rewrite Nat.sub_0_r.
      now rewrite scan_past_end.
    + rewrite E. cbn [flat_map app]. now rewrite IH.
Qed.

Lemma length_before P s : List.length (before P s) <= List.length s.
Proof. apply infix_length, infix_before. Qed.

Lemma review_input_infix_signoff d :
  infix (review_input d) (before starts_signoff d).
Proof.
  unfold review_input. rewrite sub_signoff, before_first_before.
  eapply infix_trans; [apply infix_firstn|].
  eapply infix_trans; [apply infix_strip|].
  eapply infix_trans; [apply infix_before|].
  apply infix_strip.
Qed.

Lemma review_input_infix_context d :
  exists x,
    infix (review_input d)
          (before (starts_with (lit "### Context from FAISS Index:")) x).
Proof.
  unfold review_input. rewrite before_first_before.
  eexists. eapply infix_trans; [apply infix_firstn|]. apply infix_strip.
Qed.

(** X4. What the review call is given holds no sign-off and no context marker,
    and it is no longer than the draft. *)
Theorem review_input_is_clean (draft : str) :
  ~ occurs starts_signoff (review_input draft)
  /\ ~ occurs (starts_with (lit "### Context from FAISS Index:"))
              (review_input draft)
  /\ List.length (review_input draft) <= List.length draft.
Proof.
  split; [|split].
  - intros O.
    apply (occurs_infix starts_signoff_app (review_input_infix_signoff draft))
      in O.
    revert O. apply before_clean; [exact starts_signoff_app | reflexivity].
  - intros O. destruct (review_input_infix_context draft) as [x I].
    apply (occurs_infix (fun s v => @starts_with_app _ s v) I) in O.
    revert O. apply before_clean; [intros s v; apply starts_with_app|].
    reflexivity.
  - apply Nat.le_trans with (List.length (before starts_signoff draft)).
    + apply infix_length, review_input_infix_signoff.
    + apply length_before.
Qed.

(** X5. A draft within the threshold is reviewed: the second call to the chat
    model follows the first, with the review prompt of the discipline on an
    input that the cut at 2000 characters never shortens, and the trimmed
    second completion is the result. *)
Theorem short_draft_is_reviewed
    (chat : history -> str -> N -> str)
    (accounting_review generic_review : str -> str)
    (prompt discipline : str) (h : history) :
  let draft := strip (chat h prompt 1800%N) in
  let input :=
    strip (before_first (lit "### Context from FAISS Index:")
                        (strip (sub signoff_re erase draft))) in
  let review_prompt :=
    if str_eqb discipline (lit "Accounting")
    then accounting_review input else generic_review input in
  List.length draft <= 1500 ->
  generate_reviewed_response chat accounting_review generic_review
                             prompt discipline h
  = (Ok (strip (chat (h ++ [Chat prompt 1800%N]) review_prompt 700%N)),
     h ++ [Chat prompt 1800%N; Chat review_prompt 700%N])
  /\ review_input draft = input.
Proof.
  intros draft input review_prompt L.
  assert (R : review_input draft = input).
  { unfold review_input. fold input. apply firstn_all2.
    subst input. rewrite sub_signoff, before_first_before.
    pose proof (infix_length (infix_strip
      (before (starts_with (lit "### Context from FAISS Index:"))
              (strip (before starts_signoff draft))))) as L1.
    pose proof (length_before (starts_with (lit "### Context from FAISS Index:"))
                  (strip (before starts_signoff draft))) as L2.
    pose proof (infix_length (infix_strip (before starts_signoff draft)))
      as L3.
    pose proof (length_before starts_signoff draft) as L4. lia. }
  split; [|exact R].
  unfold generate_reviewed_response. rewrite bind_call. fold draft.
  unfold review_threshold.
  replace (1500 <? List.length draft) with false
    by (symmetry; apply Nat.ltb_ge; exact L).
  rewrite R. fold review_prompt. rewrite bind_call. unfold ret.
  now rewrite <- app_assoc.
Qed.

Lemma short_draft_is_reviewed_witness :
  let chat := fun (h : history) (_ : str) (_ : N) =>
                match h with
                | [] => lit " Pay VAT. Kind Regards, The Team "
                | _ => lit " Pay the VAT due. "
                end in
  generate_reviewed_response chat (fun s => lit "A:" ++ s)
                             (fun s => lit "G:" ++ s)
                             (lit "q") (lit "Accounting") []
  = (Ok (lit "Pay the VAT due."),
     [Chat (lit "q") 1800%N; Chat (lit "A:Pay VAT.") 700%N]).
Proof.
  intro chat.
  destruct (@short_draft_is_reviewed chat (fun s => lit "A:" ++ s)
              (fun s => lit "G:" ++ s) (lit "q") (lit "Accounting") [])
    as [E _].
  - vm_compute. lia.
  - rewrite E. vm_compute. reflexivity.
Defined.

(** ** The mail *)

Section MailFacts.

Variable read_file : history -> str -> option (list N).
Variable post : history -> list message -> option (N * option json).
Variable b64encode : list N -> str.
Variable basename : str -> str.

Lemma only_reads_app a b : only_reads a -> only_reads b -> only_reads (a ++ b).
Proof.
  unfold only_reads. intros A B. rewrite forallb_app. now rewrite A, B.
Qed.

Lemma only_reads_map files : only_reads (map ReadFile files).
Proof. unfold only_reads. now induction files. Qed.

Lemma only_reads_no_mail evs : only_reads evs -> existsb is_mail evs = false.
Proof.
  unfold only_reads. induction evs as [|e evs IH]; [reflexivity|].
  cbn [forallb existsb]. intros H. apply andb_true_iff in H as [E H].
  rewrite (IH H). now destruct e.
Qed.

(** The letter raises for the enquirer and is text for everyone else. *)
Lemma cover_text_run role full_name supervisor_name h :
  if is_name role full_name
  then cover_text role full_name supervisor_name h = (Raise AttributeError, h)
  else exists t, cover_text role full_name supervisor_name h = (Ok t, h).
Proof.
  unfold cover_text. destruct (is_name role full_name); [reflexivity|].
  destruct (is_name role supervisor_name); [eexists; reflexivity|].
  destruct (str_eqb role (lit "HR Department")); eexists; reflexivity.
Qed.

Lemma read_attachments_run files :
  forall h,
    match read_attachments read_file b64encode basename files h with
    | (Ok atts, h') => h' = h ++ map ReadFile files /\ attachments_ok basename files atts
    | (Raise OSError, h') => exists evs, h' = h ++ evs /\ only_reads evs
    | (Raise _, _) => False
    end.
Proof.
  induction files as [|f more IH]; intros h; cbn [read_attachments].
  - unfold ret. cbn [map]. rewrite app_nil_r.
    split; [reflexivity|]. split; [reflexivity | constructor].
  - unfold bind at 1. unfold attempt.
    destruct (read_file h f) as [bytes|].
    + specialize (IH (h ++ [ReadFile f])). unfold bind at 1.
      destruct (read_attachments read_file b64encode basename more
                                 (h ++ [ReadFile f])) as [[atts|e] h'].
      * destruct IH as (-> & N1 & F1). unfold ret. cbn [map].
        split; [now rewrite <- app_assoc|].
        split; [cbn [map filename]; now rewrite N1|].
        constructor; [reflexivity | exact F1].
      * destruct e; try contradiction.
        destruct IH as (evs & -> & R). exists (ReadFile f :: evs).
        split; [now rewrite <- app_assoc | exact R].
    + exists [ReadFile f]. split; reflexivity.
Qed.

Lemma build_messages_run subj files full_name supervisor_name to_emails :
  forall h,
    match build_messages read_file b64encode basename to_emails subj files
                         full_name supervisor_name h with
    | (Ok ms, h') =>
        existsb (named full_name) to_emails = false
        /\ h' = h ++ all_reads to_emails files
        /\ map (fun m => (to_email m, to_name m)) ms = to_emails
        /\ Forall (message_ok basename subj files) ms
    | (Raise AttributeError, h') =>
        existsb (named full_name) to_emails = true
        /\ exists evs, h' = h ++ evs /\ only_reads evs
    | (Raise OSError, h') => exists evs, h' = h ++ evs /\ only_reads evs
    | (Raise _, _) => False
    end.
Proof.
  induction to_emails as [|[email role] more IH]; intros h;
    cbn [build_messages].
  - unfold ret, all_reads. cbn. rewrite app_nil_r.
    repeat split. constructor.
  - pose proof (cover_text_run role full_name supervisor_name h) as T.
    cbn [existsb].
    change (named full_name (email, role)) with (is_name role full_name).
    destruct (is_name role full_name).
    + rewrite (@bind_failed _ _ _ _ _ _ _ T).
      split; [reflexivity|]. exists []. split; [now rewrite app_nil_r|].
      reflexivity.
    + destruct T as [t T]. rewrite (@bind_ok _ _ _ _ _ _ _ T).
      cbn [orb]. unfold bind at 1.
      pose proof (read_attachments_run files h) as R.
      destruct (read_attachments read_file b64encode basename files h)
        as [[atts|e] h1].
      * destruct R as (-> & A).
        specialize (IH (h ++ map ReadFile files)). unfold bind at 1.
        destruct (build_messages read_file b64encode basename more subj files
                                 full_name supervisor_name
                                 (h ++ map ReadFile files)) as [[ms|e] h2].
        -- destruct IH as (Nm & -> & Rc & F). unfold ret.
           split; [exact Nm|]. split; [|split].
           ++ unfold all_reads. cbn [flat_map].
              now rewrite map_app, app_assoc.
           ++ cbn [map to_email to_name]. now rewrite Rc.
           ++ constructor; [|exact F].
              repeat split; try reflexivity; apply A.
        -- destruct e; try contradiction.
           ++ destruct IH as (Nm & evs & -> & Ro). split; [exact Nm|].
              exists (map ReadFile files ++ evs).
              split; [now rewrite app_assoc|].
              apply only_reads_app; [apply only_reads_map | exact Ro].
           ++ destruct IH as (evs & -> & Ro).
              exists (map ReadFile files ++ evs).
              split; [now rewrite app_assoc|].
              apply only_reads_app; [apply only_reads_map | exact Ro].
      * destruct e; try contradiction. exact R.
Qed.

(** X6. [send_email_mailjet], for recipients and names that are strings. It
    raises [AttributeError] when a recipient is named as the enquirer, and
    [OSError] when an attachment cannot be read; in both cases nothing is
    posted. Otherwise it has read every attachment once for each
    recipient, in order, and then posts once: one message for each
    recipient, in their order, each from the fixed sender, with the given
    subject, an HTML part that is the text part inside [<pre>], and one
    attachment for each file, named by its base name. It returns the
    status and the decoded body of the answer, and raises when the post
    fails or the body is not JSON. *)
Theorem send_email_mailjet_outcomes
    (to_emails : list (str * str)) (subj body_text : str) (files : list str)
    (full_name supervisor_name : option str) (h : history) :
  let run := send_email_mailjet read_file post b64encode basename to_emails
                                subj body_text files full_name
                                supervisor_name h in
  exists evs,
    snd run = h ++ evs
    /\ match fst run with
       | Raise AttributeError =>
           existsb (named full_name) to_emails = true
           /\ existsb is_mail evs = false
       | Raise OSError => existsb is_mail evs = false
       | outcome =>
           existsb (named full_name) to_emails = false
           /\ exists ms,
                evs = all_reads to_emails files ++ [SendMail ms]
                /\ map (fun m => (to_email m, to_name m)) ms = to_emails
                /\ Forall (message_ok basename subj files) ms
                /\ outcome
                   = match post (h ++ all_reads to_emails files) ms with
                     | Some (code, Some v) => Ok (code, v)
                     | Some (_, None) => Raise JSONDecodeError
                     | None => Raise RequestException
                     end
       end.
Proof.
  cbn zeta. unfold send_email_mailjet, bind, attempt.
  pose proof (build_messages_run subj files full_name supervisor_name
                                 to_emails h) as B.
  destruct (build_messages read_file b64encode basename to_emails subj files
                           full_name supervisor_name h) as [[ms|e] h1].
  - destruct B as (Nm & -> & Rc & F).
    exists (all_reads to_emails files ++ [SendMail ms]).
    destruct (post (h ++ all_reads to_emails files) ms) as [[code [v|]]|] eqn:P;
      cbn [fst snd]; unfold ret, raise; cbn [fst snd];
      (split; [now rewrite app_assoc|]);
      (split; [exact Nm|]); exists ms; rewrite P; repeat split; assumption.
  - destruct e; try contradiction; cbn [fst snd].
    + destruct B as (Nm & evs & -> & Ro). exists evs.
      split; [reflexivity|]. split; [exact Nm|].
      now apply only_reads_no_mail.
    + destruct B as (evs & -> & Ro). exists evs.
      split; [reflexivity|]. now apply only_reads_no_mail.
Qed.

End MailFacts.

(** ** The sections of the document *)

Lemma is_heading_add_paragraph t st : is_heading (add_paragraph t st) = false.
Proof. now destruct t. Qed.

Lemma no_heading_in_list_entries body :
  filter is_heading (list_entries body) = [].
Proof.
  unfold list_entries.
  induction (filter nonempty (map clean_entry (splitlines body)))
    as [|e es IH]; [reflexivity|exact IH].
Qed.

Lemma headings_of_sections uni_upper d :
  filter is_heading (render_sections uni_upper d)
  = map (fun k => styled (upper uni_upper (display_title k)) true false 12)
        (keys d).
Proof.
  induction d as [|[k v] d IH]; [reflexivity|].
  unfold render_sections in *. cbn [flat_map keys map fst snd].
  rewrite filter_app, IH. unfold render_section.
  cbn [filter is_heading runs styled size N.eqb Pos.eqb app].
  destruct (is_list_title k).
  - now rewrite no_heading_in_list_entries.
  - reflexivity.
Qed.

(** X10. The document has one 12-point heading for every section of the
    structured answer, in its order: the display title in upper case, bold.
    Nothing else in the document is set in 12 points. *)
Theorem one_heading_per_section
    (uni_upper : N -> str) (d : dict) (query_text full_name : str)
    (generated footer : datetime) :
  filter is_heading
         (render uni_upper d query_text full_name generated footer)
  = map (fun k => styled (upper uni_upper (display_title k)) true false 12)
        (keys d).
Proof.
  unfold render. rewrite !filter_app, headings_of_sections.
  unfold front_matter, back_matter.
  cbn [filter is_heading runs styled size N.eqb Pos.eqb].
  rewrite !is_heading_add_paragraph. cbn [app]. apply app_nil_r.
Qed.

(** *** Bold markers *)

Lemma bold_no_match prev c t :
  nostar c = true -> match_at bold_re prev (c :: t) = None.
Proof.
  intros H. unfold match_at, bold_re, text. cbn [exec].
  rewrite exec_seq_of, starts_cls_chr.
  change (lit "**") with [42; 42]%N. cbn [starts_with].
  unfold nostar in H. apply negb_true_iff in H.
  rewrite N.eqb_sym, H. reflexivity.
Qed.

Lemma scan_bold_plain a :
  all_of nostar a ->
  forall prev s,
    exists q, scan bold_re 0 prev (a ++ s)
              = map Keep a ++ scan bold_re 0 q s.
Proof.
  induction a as [|c a IH]; intros H prev s.
  - now exists prev.
  - unfold all_of in *. cbn [forallb] in H.
    apply andb_true_iff in H as [Hc Ha].
    cbn [app scan map]. rewrite (@bold_no_match prev c (a ++ s) Hc).
    destruct (IH Ha (Some c) s) as [q E].
    exists q. now rewrite E.
Qed.

Lemma sub_bold_plain body :
  all_of nostar body -> sub bold_re group_text body = body.
Proof.
  intros H. unfold sub.
  destruct (@scan_bold_plain body H None []) as [q E].
  rewrite app_nil_r in E. rewrite E. cbn [scan]. rewrite app_nil_r.
  apply flat_map_keep.
Qed.

(** The lazy star passes over a run on which what follows cannot start. *)
Lemma star_lazy_run p k prev w s m :
  all_of p w ->
  (forall q w1 c w2, w = w1 ++ c :: w2 -> k q (c :: w2 ++ s) = None) ->
  k (after prev w) s = Some m ->
  star_lazy p k prev (w ++ s) = Some m.
Proof.
  revert prev. induction w as [|c w IH]; intros prev Hw Hk Hs.
  - cbn [app]. destruct s; cbn [star_lazy]; cbn [after fold_left] in Hs;
      now rewrite Hs.
  - unfold all_of in *. cbn [forallb] in Hw.
    apply andb_true_iff in Hw as [Hc Hw].
    cbn [app star_lazy]. rewrite (Hk prev [] c w eq_refl), Hc.
    apply IH; [exact Hw | | exact Hs].
    intros q w1 d w2 E. apply (Hk q (c :: w1) d w2). now rewrite E.
Qed.

Lemma bold_match prev b c :
  all_of nostar b -> all_of dot b ->
  match_at bold_re prev (lit "**" ++ b ++ lit "**" ++ c)
  = Some (S (S (List.length b + 2)), Some b).
Proof.
  intros Hn Hd. unfold match_at, bold_re, text. cbn [exec].
  rewrite exec_seq_of, starts_cls_chr.
  change (lit "**") with [42; 42]%N.
  cbn [starts_with app N.eqb Pos.eqb andb List.length skipn firstn].
  erewrite star_lazy_run with (m := (c, Some b)); [| exact Hd | |].
  - cbn [List.length]. rewrite !length_app. cbn [List.length].
    do 2 f_equal. lia.
  - intros q w1 d w2 E. rewrite exec_seq_of, starts_cls_chr.
    cbn [starts_with].
    assert (D : nostar d = true).
    { unfold all_of in Hn. rewrite forallb_forall in Hn. apply Hn.
      rewrite E. apply in_elt. }
    unfold nostar in D. apply negb_true_iff in D.
    rewrite N.eqb_sym, D. reflexivity.
  - rewrite exec_seq_of, starts_cls_chr.
    cbn [starts_with app N.eqb Pos.eqb andb List.length skipn firstn].
    unfold accept. do 3 f_equal.
    rewrite !length_app. cbn [List.length].
    replace (List.length b + S (S (List.length c)) - S (S (List.length c)))
      with (List.length b) by lia.
    rewrite firstn_app, firstn_all, Nat.sub_diag. cbn [firstn].
    now rewrite app_nil_r.
Qed.

Lemma sub_bold_phrase a b c :
  all_of nostar a -> all_of nostar b -> all_of dot b -> all_of nostar c ->
  sub bold_re group_text (a ++ lit "**" ++ b ++ lit "**" ++ c)
  = a ++ b ++ c.
Proof.
  intros Ha Hb Hd Hc. unfold sub.
  destruct (@scan_bold_plain a Ha None (lit "**" ++ b ++ lit "**" ++ c))
    as [q E].
  rewrite E, flat_map_app, flat_map_keep. f_equal.
  pose proof (bold_match q c Hb Hd) as M.
  change (lit "**" ++ b ++ lit "**" ++ c)
    with (42%N :: 42%N :: b ++ lit "**" ++ c) in *.
  cbn [scan]. rewrite M.
  destruct (scan_skip bold_re (List.length b + 2) (Some 42%N)
                      (b ++ lit "**" ++ c)) as [q' ->].
  replace (List.length b + 2) with (List.length (b ++ lit "**"))
    by (rewrite length_app; reflexivity).
  rewrite app_assoc, skipn_app, skipn_all, Nat.sub_diag. cbn [skipn app].
  destruct (@scan_bold_plain c Hc q' []) as [q2 E2].
  rewrite app_nil_r in E2. rewrite E2. cbn [scan flat_map group_text].
  rewrite app_nil_r, flat_map_keep. reflexivity.
Qed.

(** X11. A section that is not a numbered list is its heading and one paragraph
    of 11 points with the body, from which the [**] around a phrase on one
    line are dropped and the phrase kept; a body without an asterisk is
    kept as it is. *)
Theorem plain_section_is_heading_and_body
    (uni_upper : N -> str) (title body : str) :
  is_list_title title = false ->
  render_section uni_upper title body
  = [ styled (upper uni_upper (display_title title)) true false 12;
      styled (sub bold_re group_text body) false false 11 ]
  /\ (all_of nostar body -> sub bold_re group_text body = body)
  /\ (forall a b c,
        all_of nostar a -> all_of nostar b -> all_of dot b ->
        all_of nostar c ->
        body = a ++ lit "**" ++ b ++ lit "**" ++ c ->
        sub bold_re group_text body = a ++ b ++ c).
Proof.
  intros H. unfold render_section. rewrite H.
  split; [reflexivity|]. split; [apply sub_bold_plain|].
  intros a b c Ha Hb Hd Hc ->. now apply sub_bold_phrase.
Qed.

Lemma plain_section_is_heading_and_body_witness :
  render_section (fun c => [c]) (lit "Enquirer Reply")
                 (lit "Pay **VAT** now.")
  = [ styled (lit "INITIAL RESPONSE") true false 12;
      styled (lit "Pay VAT now.") false false 11 ].
Proof.
  destruct (@plain_section_is_heading_and_body (fun c => [c])
              (lit "Enquirer Reply") (lit "Pay **VAT** now.") eq_refl)
    as (R & _ & B).
  rewrite R.
  rewrite (B (lit "Pay ") (lit "VAT") (lit " now.")
             eq_refl eq_refl eq_refl eq_refl eq_refl).
  reflexivity.
Defined.

(** ** The news search *)

Section GoogleSearchFacts.

Variable show : json -> str.
Variable http_get : str -> N -> option json.

Lemma format_items_dicts items :
  forallb is_dict items = true ->
  exists rs, format_items show items = Some rs
             /\ List.length rs = List.length items
             /\ Forall (fun r => starts_with [8226; 32]%N r = true) rs.
Proof.
  induction items as [|i items IH]; cbn [forallb format_items].
  - intros _. exists []. repeat split. constructor.
  - intros H. apply andb_true_iff in H as [D H].
    destruct i; try discriminate D. cbn [format_item].
    destruct (IH H) as (rs & -> & L & F).
    eexists. split; [reflexivity|]. split; [cbn; now rewrite L|].
    constructor; [|exact F]. cbn [app starts_with].
    now rewrite !N.eqb_refl.
Qed.

Lemma format_items_bad items :
  forallb is_dict items = false -> format_items show items = None.
Proof.
  induction items as [|i items IH]; cbn [forallb format_items];
    [discriminate|].
  intros H. apply andb_false_iff in H as [D | H].
  - destruct i; try reflexivity. discriminate D.
  - rewrite (IH H). now destruct (format_item show i).
Qed.

(** X12. [fetch_google_news] never returns an empty list: there is always an
    entry to print, be it the notice that nothing was found or that the
    search failed. *)
Theorem fetch_google_news_never_empty (query : str) (num_results : N) :
  fetch_google_news show http_get query num_results <> [].
Proof.
  unfold fetch_google_news, search_failed.
  destruct (http_get query num_results) as [[| | | | |data]|];
    try discriminate.
  destruct (iterate _) as [items|]; [|discriminate].
  destruct (format_items show items) as [[|r rs]|]; discriminate.
Qed.

(** X13. When the response lists at least one result and every result is an
    object, there is one entry for each of them, each beginning with the
    bullet; the number asked for puts no bound on them. *)
Theorem fetch_google_news_lists_every_item
    (query : str) (num_results : N) (data : list (str * json))
    (items : list json) :
  http_get query num_results = Some (JDict data) ->
  json_get (lit "items") (JList []) data = JList items ->
  items <> [] ->
  forallb is_dict items = true ->
  format_items show items
  = Some (fetch_google_news show http_get query num_results)
  /\ List.length (fetch_google_news show http_get query num_results)
     = List.length items
  /\ Forall (fun r => starts_with [8226; 32]%N r = true)
            (fetch_google_news show http_get query num_results).
Proof.
  intros G I NE D. unfold fetch_google_news. rewrite G, I. cbn [iterate].
  destruct (format_items_dicts items D) as (rs & -> & L & F).
  destruct rs as [|r rs].
  - destruct items; [congruence | discriminate L].
  - auto.
Qed.

(** X14. One result that is not an object loses them all: the answer is the
    failure notice alone. So it is when the response is not an object or
    its [items] cannot be gone through. *)
Theorem fetch_google_news_all_or_nothing
    (query : str) (num_results : N) (data : list (str * json))
    (items : list json) :
  http_get query num_results = Some (JDict data) ->
  iterate (json_get (lit "items") (JList []) data) = Some items ->
  forallb is_dict items = false ->
  fetch_google_news show http_get query num_results = search_failed.
Proof.
  intros G I D. unfold fetch_google_news. rewrite G, I.
  now rewrite (format_items_bad items D).
Qed.

End GoogleSearchFacts.

Lemma fetch_google_news_lists_every_item_witness :
  fetch_google_news (fun _ => lit "None")
    (fun _ _ =>
       Some (JDict [(lit "items",
                     JList [JDict [(lit "title", JStr (lit "VAT"));
                                   (lit "link", JNull)]])]))
    (lit "VAT") 3
  = [[8226; 32]%N ++ lit "VAT" ++ NL ++ lit "  " ++ NL ++ lit "  None"].
Proof.
  destruct (@fetch_google_news_lists_every_item (fun _ => lit "None")
              (fun _ _ =>
                 Some (JDict [(lit "items",
                               JList [JDict [(lit "title", JStr (lit "VAT"));
                                             (lit "link", JNull)]])]))
              (lit "VAT") 3%N _ _ eq_refl eq_refl) as (E & _).
  - discriminate.
  - reflexivity.
  - match goal with |- ?l = ?r => enough (H : Some l = Some r) end.
    + exact (f_equal (fun o => match o with Some l => l | None => [] end) H).
    + rewrite <- E. reflexivity.
Defined.

Lemma fetch_google_news_all_or_nothing_witness :
  fetch_google_news (fun _ => lit "None")
    (fun _ _ =>
       Some (JDict [(lit "items",
                     JList [JDict [(lit "title", JStr (lit "VAT"))];
                            JStr (lit "oops")])]))
    (lit "VAT") 3
  = search_failed.
Proof.
  apply (@fetch_google_news_all_or_nothing (fun _ => lit "None")
           (fun _ _ =>
              Some (JDict [(lit "items",
                            JList [JDict [(lit "title", JStr (lit "VAT"))];
                                   JStr (lit "oops")])]))
           (lit "VAT") 3%N _ _ eq_refl eq_refl).
  reflexivity.
Defined.

(** ** Runs from bold markers *)

Lemma add_parts_runs parts :
  forall p,
    style (fold_left add_part parts p) = style p
    /\ left_indent (fold_left add_part parts p) = left_indent p
    /\ exists added,
         runs (fold_left add_part parts p) = runs p ++ added
         /\ List.length added = List.length parts.
Proof.
  induction parts as [|part parts IH]; intros p; cbn [fold_left].
  - repeat split. exists []. now rewrite app_nil_r.
  - destruct (IH (add_part p part)) as (S & L & added & R & N).
    assert (A : style (add_part p part) = style p
                /\ left_indent (add_part p part) = left_indent p
                /\ exists r, runs (add_part p part) = runs p ++ [r]).
    { unfold add_part.
      destruct (starts_with (lit "**") part && ends_with (lit "**") part);
        cbn; repeat split; eexists; reflexivity. }
    destruct A as (S' & L' & r & R').
    rewrite S, L, R, R'. repeat split; auto.
    exists (r :: added). rewrite <- app_assoc. cbn [app List.length].
    now rewrite N.
Qed.

(** X16. [add_markdown_bold] keeps the style, the indent and the runs the
    paragraph has, and adds one run for every stretch between marked
    phrases and one for every marked phrase: two for every match of the
    pattern, and one. *)
Theorem add_markdown_bold_adds_runs (p : paragraph) (text : str) :
  style (add_markdown_bold p text) = style p
  /\ left_indent (add_markdown_bold p text) = left_indent p
  /\ exists added,
       runs (add_markdown_bold p text) = runs p ++ added
       /\ List.length added = 2 * count bold_part_re text + 1.
Proof.
  unfold add_markdown_bold.
  destruct (add_parts_runs (split bold_part_re text) p)
    as (S & L & added & R & N).
  repeat split; auto. exists added. split; [exact R|].
  rewrite N. unfold split, count. apply length_split_pieces.
Qed.

Lemma bold_part_no_match prev c t :
  nostar c = true -> match_at bold_part_re prev (c :: t) = None.
Proof.
  intros H. unfold match_at, bold_part_re, text. cbn [exec].
  rewrite exec_seq_of, starts_cls_chr.
  change (lit "**") with [42; 42]%N. cbn [starts_with].
  unfold nostar in H. apply negb_true_iff in H.
  rewrite N.eqb_sym, H. reflexivity.
Qed.

Lemma scan_bold_part_plain a :
  all_of nostar a ->
  forall prev s,
    exists q, scan bold_part_re 0 prev (a ++ s)
              = map Keep a ++ scan bold_part_re 0 q s.
Proof.
  induction a as [|c a IH]; intros H prev s.
  - now exists prev.
  - unfold all_of in *. cbn [forallb] in H.
    apply andb_true_iff in H as [Hc Ha].
    cbn [app scan map]. rewrite (@bold_part_no_match prev c (a ++ s) Hc).
    destruct (IH Ha (Some c) s) as [q E].
    exists q. now rewrite E.
Qed.

Lemma bold_part_match prev b0 b c :
  all_of nostar (b0 :: b) ->
  match_at bold_part_re prev (lit "**" ++ (b0 :: b) ++ lit "**" ++ c)
  = Some (S (S (S (List.length b + 2))),
          Some (lit "**" ++ (b0 :: b) ++ lit "**")).
Proof.
  intros Hn. unfold all_of in Hn. cbn [forallb] in Hn.
  apply andb_true_iff in Hn as [H0 Hb].
  unfold match_at, bold_part_re, text, plus. cbn [exec].
  rewrite exec_seq_of, starts_cls_chr.
  change (lit "**") with [42; 42]%N.
  cbn [starts_with app N.eqb Pos.eqb andb List.length skipn firstn].
  rewrite H0.
  erewrite star_greedy_run
    with (m := (c, Some (42 :: 42 :: b0 :: b ++ [42; 42])%N));
    [| exact Hb | reflexivity |].
  - rewrite !length_app. cbn [List.length]. do 2 f_equal. lia.
  - rewrite exec_seq_of, starts_cls_chr.
    cbn [starts_with app N.eqb Pos.eqb andb List.length skipn firstn].
    unfold accept. do 3 f_equal.
    rewrite !length_app. cbn [List.length].
    replace (S (S (S (List.length b + S (S (List.length c)))))
             - List.length c) with (3 + (List.length b + 2)) by lia.
    cbn [Nat.add firstn]. do 3 f_equal.
    change (42 :: 42 :: c)%N with ([42; 42]%N ++ c).
    rewrite app_assoc.
    replace (List.length b + 2) with (List.length (b ++ [42; 42]%N))
      by (rewrite length_app; reflexivity).
    rewrite firstn_app, firstn_all, Nat.sub_diag. cbn [firstn].
    now rewrite app_nil_r.
Qed.

Lemma split_pieces_app_keep a cur ps :
  split_pieces cur (map Keep a ++ ps) = split_pieces (rev a ++ cur) ps.
Proof.
  revert cur. induction a as [|c a IH]; intros cur; [reflexivity|].
  cbn [map app split_pieces rev]. rewrite IH.
  now rewrite <- app_assoc.
Qed.

Lemma split_bold_phrase a b0 b c :
  all_of nostar a -> all_of nostar (b0 :: b) -> all_of nostar c ->
  split bold_part_re (a ++ lit "**" ++ (b0 :: b) ++ lit "**" ++ c)
  = [a; lit "**" ++ (b0 :: b) ++ lit "**"; c].
Proof.
  intros Ha Hb Hc. unfold split.
  destruct (@scan_bold_part_plain a Ha None
              (lit "**" ++ (b0 :: b) ++ lit "**" ++ c)) as [q E].
  rewrite E, split_pieces_app_keep, app_nil_r.
  pose proof (bold_part_match q c Hb) as M.
  change (lit "**" ++ (b0 :: b) ++ lit "**" ++ c)
    with (42%N :: 42%N :: b0 :: b ++ lit "**" ++ c) in *.
  cbn [scan]. rewrite M.
  destruct (scan_skip bold_part_re (List.length b + 2) (Some b0)
                      (b ++ lit "**" ++ c)) as [q' ->].
  replace (List.length b + 2) with (List.length (b ++ lit "**"))
    by (rewrite length_app; reflexivity).
  rewrite (app_assoc b (lit "**") c), skipn_app, skipn_all, Nat.sub_diag.
  cbn [skipn app].
  destruct (@scan_bold_part_plain c Hc q' []) as [q2 E2].
  rewrite app_nil_r in E2. rewrite E2. cbn [scan]. rewrite app_nil_r.
  cbn [split_pieces group_text].
  now rewrite split_pieces_keep, rev_involutive.
Qed.

Lemma plain_part_not_bold a :
  all_of nostar a -> starts_with (lit "**") a = false.
Proof.
  destruct a as [|c a]; [reflexivity|].
  unfold all_of. cbn [forallb]. intros H.
  apply andb_true_iff in H as [H _].
  unfold nostar in H. apply negb_true_iff in H.
  change (lit "**") with [42; 42]%N. cbn [starts_with].
  now rewrite N.eqb_sym, H.
Qed.

(** X17. A text without an asterisk becomes one plain run, empty when the text
    is; a phrase between [**] in a text otherwise free of asterisks becomes
    a bold run without the markers, between the plain runs of what stands
    before and after it. *)
Theorem add_markdown_bold_phrase (p : paragraph) (a b c : str) :
  all_of nostar a -> all_of nostar b -> b <> [] -> all_of nostar c ->
  runs (add_markdown_bold p a) = runs p ++ [plain_run a]
  /\ runs (add_markdown_bold p (a ++ lit "**" ++ b ++ lit "**" ++ c))
     = runs p ++ [ plain_run a;
                   {| rtext := b; bold := true; italic := false;
                      size := None |};
                   plain_run c ].
Proof.
  intros Ha Hb Nb Hc. split.
  - unfold add_markdown_bold, split.
    destruct (@scan_bold_part_plain a Ha None []) as [q E].
    rewrite app_nil_r in E. rewrite E. cbn [scan]. rewrite app_nil_r.
    rewrite split_pieces_keep. cbn [rev app fold_left]. unfold add_part.
    now rewrite (plain_part_not_bold Ha).
  - destruct b as [|b0 b]; [congruence|].
    unfold add_markdown_bold. rewrite (split_bold_phrase Ha Hb Hc).
    cbn [fold_left]. unfold add_part at 3.
    rewrite (plain_part_not_bold Ha). cbn [andb].
    unfold add_part at 2.
    assert (SW : starts_with (lit "**") (lit "**" ++ (b0 :: b) ++ lit "**")
                 = true) by reflexivity.
    assert (E : ends_with (lit "**") (lit "**" ++ (b0 :: b) ++ lit "**")
                = true).
    { unfold ends_with. rewrite !rev_app_distr. reflexivity. }
    assert (I : inner (lit "**" ++ (b0 :: b) ++ lit "**") = b0 :: b).
    { unfold inner. change (lit "**") with [42; 42]%N.
      cbn [app skipn List.length]. rewrite length_app. cbn [List.length].
      replace (S (S (S (List.length b + 2))) - 4) with (S (List.length b))
        by lia.
      cbn [firstn]. f_equal.
      rewrite firstn_app, firstn_all, Nat.sub_diag. cbn [firstn].
      apply app_nil_r. }
    rewrite SW, E, I. cbn [andb]. unfold add_part.
    rewrite (plain_part_not_bold Hc). cbn [andb add_run runs].
    rewrite <- !app_assoc. reflexivity.
Qed.

Lemma add_markdown_bold_phrase_witness :
  runs (add_markdown_bold (add_paragraph [] Normal)
                          (lit "Pay **VAT** now."))
  = [ plain_run (lit "Pay ");
      {| rtext := lit "VAT"; bold := true; italic := false; size := None |};
      plain_run (lit " now.") ].
Proof.
  destruct (@add_markdown_bold_phrase (add_paragraph [] Normal)
              (lit "Pay ") (lit "VAT") (lit " now.") eq_refl eq_refl)
    as [_ R]; [discriminate | reflexivity |].
  exact R.
Defined.

(** ** Greeting lines under a reply heading *)

Lemma star_greedy_some p k prev u :
  k (after prev (take_while p u)) (drop_while p u) <> None ->
  star_greedy p k prev u <> None.
Proof.
  destruct (k (after prev (take_while p u)) (drop_while p u)) as [m|] eqn:E;
    [|congruence].
  intros _. now rewrite (star_greedy_max _ _ _ _ E).
Qed.

Lemma eol_space q v g m :
  exec Eol accept q v g = Some m -> all_of isspace v.
Proof.
  cbn [exec]. destruct v as [|c [|d v]]; try discriminate; [reflexivity|].
  destruct (c =? 10)%N eqn:E; [|discriminate]. intros _.
  apply N.eqb_eq in E. now subst.
Qed.

Lemma trailing_space q u g m :
  star_greedy isspace (fun q v => exec Eol accept q v g) q u = Some m ->
  all_of isspace u.
Proof.
  intros H. apply star_greedy_split in H as (w & v & -> & A & E).
  apply eol_space in E. now apply all_of_app.
Qed.

Lemma trailing_total q u (g : option str) :
  all_of isspace u ->
  star_greedy isspace (fun q v => exec Eol accept q v g) q u <> None.
Proof.
  intros A. apply star_greedy_some.
  rewrite <- (app_nil_r u) at 2. rewrite drop_while_run; [|exact A|exact I].
  discriminate.
Qed.

Lemma strip_decompose s :
  exists w0 w3, s = w0 ++ strip s ++ w3
                /\ all_of isspace w0 /\ all_of isspace w3.
Proof.
  exists (take_while isspace s),
         (rev (take_while isspace (rev (lstrip s)))).
  split; [|split].
  - unfold strip, rstrip. rewrite <- rev_app_distr.
    rewrite <- (drop_while_isspace (rev (lstrip s))), take_drop_while.
    rewrite rev_involutive, <- drop_while_isspace.
    now rewrite take_drop_while.
  - apply take_while_all.
  - apply all_of_rev. apply take_while_all.
Qed.

Lemma chr_i_letter_not_space a c :
  (97 <= a <= 122)%N -> chr_i a c = true -> isspace c = false.
Proof.
  intros Ha H. destruct (isspace c) eqn:S; [|reflexivity].
  exfalso.
  unfold chr_i, case_fixes, simple_lower, between in H.
  unfold isspace, between in S.
  split_ifs H; cbn [existsb] in H; to_prop; lia.
Qed.

Lemma chr_i_comma c : chr_i 44 c = true -> c = 44%N.
Proof.
  unfold chr_i, case_fixes, simple_lower, between.
  intros H. split_ifs H; cbn [existsb] in H; to_prop; lia.
Qed.

Lemma starts_with_i_firstn p v :
  starts_with_i p v = true ->
  starts_with_i p (firstn (List.length p) v) = true
  /\ List.length (firstn (List.length p) v) = List.length p.
Proof.
  revert v. induction p as [|a p IH]; intros [|b v]; cbn; try discriminate;
    auto.
  intros H. apply andb_true_iff in H as [A H].
  destruct (IH _ H) as [S L]. now rewrite A, S, L.
Qed.

Lemma eq_i_last p z t :
  eq_i (p ++ [z]) t = true ->
  exists t1 d, t = t1 ++ [d] /\ chr_i z d = true.
Proof.
  unfold eq_i. revert t. induction p as [|a p IH]; intros t H;
    apply andb_true_iff in H as [S L]; apply Nat.eqb_eq in L.
  - destruct t as [|d [|e t]]; try discriminate.
    cbn in S. apply andb_true_iff in S as [S _]. now exists [], d.
  - destruct t as [|b t]; [discriminate|].
    cbn [app starts_with_i] in S. apply andb_true_iff in S as [_ S].
    cbn [app List.length] in L.
    destruct (IH t) as (t1 & d & -> & D).
    + rewrite S. cbn [andb]. apply Nat.eqb_eq. lia.
    + now exists (b :: t1), d.
Qed.

(** A text that is one of the greetings in some letter case is trimmed. *)
Lemma eq_i_trimmed a p z t :
  (forall c, chr_i a c = true -> isspace c = false) ->
  (forall c, chr_i z c = true -> isspace c = false) ->
  eq_i (a :: p ++ [z]) t = true -> t <> [] /\ strip t = t.
Proof.
  intros Ha Hz E.
  destruct (@eq_i_last (a :: p) z t E) as (t1 & d & -> & D).
  unfold eq_i in E. apply andb_true_iff in E as [S L].
  apply Nat.eqb_eq in L. rewrite length_app in L. cbn [List.length] in L.
  rewrite length_app in L. cbn [List.length] in L.
  destruct t1 as [|c t1]; [cbn [List.length] in L; lia|].
  cbn [app starts_with_i] in S. apply andb_true_iff in S as [C _].
  split; [discriminate|].
  pose proof (@strip_core [] c t1 [d] [] eq_refl eq_refl (Ha _ C)) as X.
  cbn [app] in X. rewrite app_nil_r in X. apply X; [discriminate|].
  unfold strip, rstrip. cbn [lstrip rev app]. rewrite (Hz _ D).
  cbn [rev app lstrip]. now rewrite (Hz _ D).
Qed.

Lemma greeting_trimmed t :
  existsb (fun p => eq_i p t) greetings = true ->
  t <> [] /\ strip t = t.
Proof.
  unfold greetings. cbn [existsb]. rewrite !orb_true_iff.
  intros [E | [E | [E | E]]].
  - apply (@eq_i_trimmed 101 (lit "nquirer repl") 121); [| |exact E];
      intros c; apply chr_i_letter_not_space; lia.
  - apply (@eq_i_trimmed 104 (lit "ell") 111); [| |exact E];
      intros c; apply chr_i_letter_not_space; lia.
  - apply (@eq_i_trimmed 104 (lit "ello") 44); [| |exact E]; intros c.
    + apply chr_i_letter_not_space; lia.
    + intros H. apply chr_i_comma in H. now subst.
  - discriminate E.
Qed.

Lemma matched_orelse a b : matched (orelse a b) = matched a || matched b.
Proof. now destruct a. Qed.

Lemma matched_if (c : bool) o :
  matched (if c then o else None) = c && matched o.
Proof. now destruct c. Qed.

Lemma matches_matched r s :
  matches r s = matched (exec r accept None s None).
Proof.
  unfold matches, match_at.
  now destruct (exec r accept None s None) as [[u g]|].
Qed.

Lemma tail_matched q u g :
  matched (exec greeting_tail accept q u g) = forallb isspace u.
Proof.
  change (exec greeting_tail accept q u g)
    with (star_greedy isspace (fun q0 u0 => exec Eol accept q0 u0 g) q u).
  destruct (forallb isspace u) eqn:F.
  - pose proof (@trailing_total q u g F) as T.
    now destruct (star_greedy _ _ q u).
  - destruct (star_greedy _ _ q u) as [m|] eqn:E; [|reflexivity].
    apply trailing_space in E. unfold all_of in E. congruence.
Qed.

(** What follows the white space at the start of a greeting line. *)
Lemma greeting_core_matched q v :
  matched (exec (Seq (Grp (Alt (text_i "enquirer reply")
                               (Seq (text_i "hello") (opt (chr 44)))))
                     greeting_tail) accept q v None)
  = (starts_with_i (lit "enquirer reply") v
     && forallb isspace (skipn 14 v))
    || (starts_with_i (lit "hello") v
        && (match skipn 5 v with
            | c :: t => (44 =? c)%N && forallb isspace t
            | [] => false
            end
            || forallb isspace (skipn 5 v))).
Proof.
  unfold text_i, opt. cbn [exec].
  rewrite !exec_seq_of, !starts_cls_chr_i.
  rewrite matched_orelse, !matched_if, matched_orelse, !tail_matched.
  change (List.length (lit "enquirer reply")) with 14.
  change (List.length (lit "hello")) with 5.
  do 3 f_equal.
  destruct (skipn 5 v) as [|c t]; [reflexivity|].
  unfold chr. now rewrite matched_if, tail_matched.
Qed.

Lemma greeting_exec line :
  exec greeting_line_re accept None line None
  = star_greedy isspace
      (fun q u =>
         exec (Seq (Grp (Alt (text_i "enquirer reply")
                             (Seq (text_i "hello") (opt (chr 44)))))
                   greeting_tail) accept q u None)
      None line.
Proof. reflexivity. Qed.

Lemma eq_i_app p t w :
  eq_i p t = true ->
  starts_with_i p (t ++ w) = true /\ skipn (List.length p) (t ++ w) = w.
Proof.
  unfold eq_i. intros H. apply andb_true_iff in H as [S L].
  apply Nat.eqb_eq in L. split; [now apply starts_with_i_app|].
  now rewrite <- L, skipn_app, skipn_all, Nat.sub_diag.
Qed.

Lemma eq_i_snoc p t c d :
  eq_i p t = true -> chr_i c d = true -> eq_i (p ++ [c]) (t ++ [d]) = true.
Proof.
  unfold eq_i. revert t. induction p as [|a p IH]; intros [|b t] H D;
    apply andb_true_iff in H as [S L]; try discriminate.
  - cbn. now rewrite D.
  - cbn [starts_with_i] in S. apply andb_true_iff in S as [A S].
    cbn [app starts_with_i List.length Nat.eqb] in *.
    rewrite A. cbn [andb]. apply IH; [|exact D]. now rewrite S, L.
Qed.

Lemma eq_i_snoc_inv p t c d :
  eq_i (p ++ [c]) (t ++ [d]) = true -> eq_i p t = true.
Proof.
  unfold eq_i. revert t. induction p as [|a p IH]; intros [|b t] H;
    apply andb_true_iff in H as [S L]; apply Nat.eqb_eq in L;
    rewrite ?length_app in L; cbn [app List.length] in L;
    rewrite ?length_app in L; cbn [List.length] in L;
    try reflexivity; try lia.
  cbn [app starts_with_i List.length] in *.
  apply andb_true_iff in S as [A S]. rewrite A. cbn [andb Nat.eqb].
  apply IH. rewrite S. cbn [andb]. apply Nat.eqb_eq.
  rewrite !length_app. cbn [List.length]. lia.
Qed.

Lemma greeting_found w core rest :
  all_of isspace w -> all_of isspace rest ->
  existsb (fun p => eq_i p core) greetings = true ->
  is_greeting (w ++ core ++ rest) = true.
Proof.
  intros Hw Hr G. unfold is_greeting.
  destruct (greeting_trimmed _ G) as [Nc T].
  now rewrite (@strip_core_nil _ _ _ Hw Hr Nc T).
Qed.

(** The pattern of the greeting lines says that the trimmed line is one
    of the greetings. *)
Lemma greeting_line_matches line :
  matches greeting_line_re line = is_greeting line.
Proof.
  rewrite matches_matched, greeting_exec.
  destruct (is_greeting line) eqn:G.
  - unfold is_greeting in G.
    destruct (greeting_trimmed _ G) as [Nt T].
    destruct (strip_decompose line) as (w0 & w3 & E & H0 & H3).
    set (t := strip line) in *. rewrite E.
    assert (St : stops isspace (t ++ w3)).
    { destruct t as [|c t']; [congruence|]. cbn [app stops].
      apply (@lstrip_fixed_head c t'). now apply strip_fixed. }
    set (K := fun q u => exec _ accept q u None).
    assert (M : matched (K (after None w0) (t ++ w3)) = true).
    { subst K. cbn beta. rewrite greeting_core_matched.
      unfold greetings in G. cbn [existsb] in G.
      rewrite !orb_true_iff in G. destruct G as [G | [G | [G | G]]].
      - destruct (@eq_i_app _ _ w3 G) as [S K'].
        change (skipn 14 (t ++ w3) = w3) in K'. rewrite S, K'.
        unfold all_of in H3. now rewrite H3.
      - destruct (@eq_i_app _ _ w3 G) as [S K'].
        change (skipn 5 (t ++ w3) = w3) in K'. rewrite S, K'.
        unfold all_of in H3. rewrite H3. now rewrite !orb_true_r.
      - change (lit "hello,") with (lit "hello" ++ [44%N]) in G.
        destruct (@eq_i_last _ _ _ G) as (t1 & d & Et & D).
        apply chr_i_comma in D. subst d. rewrite Et in G.
        apply eq_i_snoc_inv in G.
        rewrite Et, <- app_assoc.
        destruct (@eq_i_app _ _ ([44%N] ++ w3) G) as [S K'].
        change (skipn 5 (t1 ++ [44%N] ++ w3) = [44%N] ++ w3) in K'.
        rewrite S, K'. cbn [app N.eqb Pos.eqb andb].
        unfold all_of in H3. rewrite H3. now rewrite orb_true_r.
      - discriminate G. }
    destruct (K (after None w0) (t ++ w3)) as [m|] eqn:Km; [|discriminate].
    now rewrite (@star_greedy_run _ _ _ _ _ _ H0 St Km).
  - destruct (star_greedy isspace _ None line) as [m|] eqn:E;
      [|reflexivity].
    exfalso. apply star_greedy_split in E as (w & v & -> & Hw & K).
    pose proof (greeting_core_matched (after None w) v) as M.
    rewrite K in M. cbn [matched] in M. symmetry in M.
    rewrite orb_true_iff, !andb_true_iff, orb_true_iff in M.
    assert (X : exists core rest,
               v = core ++ rest /\ all_of isspace rest
               /\ existsb (fun p => eq_i p core) greetings = true).
    { destruct M as [[S F] | [S [F | F]]].
      - exists (firstn 14 v), (skipn 14 v).
        split; [now rewrite firstn_skipn|]. split; [exact F|].
        destruct (@starts_with_i_firstn _ _ S) as [S' L'].
        unfold greetings. cbn [existsb]. unfold eq_i at 1.
        change (List.length (lit "enquirer reply")) with 14 in *.
        now rewrite S', L'.
      - destruct (skipn 5 v) as [|c t] eqn:Sk; [discriminate|].
        apply andb_true_iff in F as [C F]. apply N.eqb_eq in C. subst c.
        exists (firstn 5 v ++ [44%N]), t.
        split; [|split; [exact F|]].
        + rewrite <- app_assoc. cbn [app]. rewrite <- Sk.
          now rewrite firstn_skipn.
        + destruct (@starts_with_i_firstn _ _ S) as [S' L'].
          change (List.length (lit "hello")) with 5 in *.
          unfold greetings. cbn [existsb].
          change (lit "hello,") with (lit "hello" ++ [44%N]).
          rewrite (@eq_i_snoc (lit "hello") (firstn 5 v) 44 44);
            [now rewrite !orb_true_r | | reflexivity].
          unfold eq_i. now rewrite S', L'.
      - exists (firstn 5 v), (skipn 5 v).
        split; [now rewrite firstn_skipn|]. split; [exact F|].
        destruct (@starts_with_i_firstn _ _ S) as [S' L'].
        change (List.length (lit "hello")) with 5 in *.
        unfold greetings. cbn [existsb]. unfold eq_i at 2.
        rewrite S', L'. now rewrite orb_true_r. }
    destruct X as (core & rest & -> & Hr & Gc).
    rewrite (@greeting_found _ _ _ Hw Hr Gc) in G. discriminate G.
Qed.

(** X18. Under a heading titled "Enquirer Reply" or "Initial Response" in any
    letter case, the loop stores the body less every line that, trimmed,
    is "enquirer reply", "hello" or "hello," in any letter case, and
    trimmed again. *)
Theorem reply_sections_drop_greeting_lines
    (j : nat) (b : str) (d : dict) (title : str) :
  nonempty title = true ->
  is_reply_title title = true ->
  structured (step (2 * j + 2) b
                   {| structured := d; current_title := Some title |})
  = dict_set title
      (strip (join NL (filter (fun l => negb (is_greeting l))
                              (splitlines (strip b)))))
      d.
Proof.
  intros N R. rewrite step_body, N. cbn [structured].
  unfold section_body. rewrite R. unfold cleaned_lines.
  do 3 f_equal. apply filter_ext. intros l.
  now rewrite greeting_line_matches.
Qed.

Lemma reply_sections_drop_greeting_lines_witness :
  structured (step (2 * 0 + 2)
                   (lit " HELLO, " ++ NL ++ lit "Pay VAT." ++ NL
                    ++ lit "enquirer Reply")
                   {| structured := [];
                      current_title := Some (lit "Initial response") |})
  = [(lit "Initial response", lit "Pay VAT.")].
Proof.
  rewrite (@reply_sections_drop_greeting_lines 0
             (lit " HELLO, " ++ NL ++ lit "Pay VAT." ++ NL
              ++ lit "enquirer Reply")
             [] (lit "Initial response") eq_refl eq_refl).
  vm_compute. reflexivity.
Defined.

(** ** The prompt *)

Lemma infix_here u b : infix u (u ++ b).
Proof. now exists [], b. Qed.

Lemma infix_skip u x s : infix u s -> infix u (x ++ s).
Proof.
  intros (a & b & ->). exists (x ++ a), b. now rewrite <- app_assoc.
Qed.

Lemma get_or_same k default data data' :
  dict_get (lit k) data = dict_get (lit k) data' ->
  get_or k default data = get_or k default data'.
Proof. unfold get_or. now intros ->. Qed.

(** X19. The prompt holds the query between quotation marks and the context,
    both verbatim. *)
Theorem prompt_holds_query_and_context (data : dict) (context : str) :
  infix (quoted (get_or "query" "" data)) (prompt_of data context)
  /\ infix context (prompt_of data context).
Proof.
  unfold prompt_of, lines. cbn [join]. split.
  - do 16 apply infix_skip. apply infix_here.
  - do 22 apply infix_skip. apply infix_here.
Qed.

(** X20. The generation step reads the request only through [query], the three
    funnel fields and [discipline]: [job_title], [seniority_level],
    [timeline] and [site] are fetched but change neither the prompt nor
    the outcome. *)
Theorem generation_ignores_the_other_fields
    (chat : history -> str -> N -> str)
    (accounting_review generic_review : str -> str)
    (data data' : dict) (context : str) (h : history) :
  Forall (fun k => dict_get (lit k) data = dict_get (lit k) data')
         ["query"; "funnel_1"; "funnel_2"; "funnel_3"; "discipline"]%string ->
  prompt_of data context = prompt_of data' context
  /\ ask_gpt_with_context chat accounting_review generic_review data context h
     = ask_gpt_with_context chat accounting_review generic_review data'
                            context h.
Proof.
  intros F.
  inversion_clear F as [|? ? Q F1]. inversion_clear F1 as [|? ? A F2].
  inversion_clear F2 as [|? ? B F3]. inversion_clear F3 as [|? ? C F4].
  inversion_clear F4 as [|? ? D _].
  assert (P : prompt_of data context = prompt_of data' context).
  { unfold prompt_of.
    now rewrite (@get_or_same _ _ _ _ Q), (@get_or_same _ _ _ _ A),
                (@get_or_same _ _ _ _ B), (@get_or_same _ _ _ _ C). }
  split; [exact P|].
  unfold ask_gpt_with_context. now rewrite P, (@get_or_same _ _ _ _ D).
Qed.

Lemma generation_ignores_the_other_fields_witness :
  prompt_of [(lit "query", lit "VAT?"); (lit "job_title", lit "CFO");
             (lit "site", lit "Leeds")] no_index_context
  = prompt_of [(lit "query", lit "VAT?")] no_index_context.
Proof.
  apply (@generation_ignores_the_other_fields example_chat (fun s => s)
           (fun s => s)
           [(lit "query", lit "VAT?"); (lit "job_title", lit "CFO");
            (lit "site", lit "Leeds")]
           [(lit "query", lit "VAT?")] no_index_context []).
  repeat constructor.
Defined.
